(** * subiquitycore.ui.interactive: re-usable input widgets

    A shallow embedding of [subiquitycore/ui/interactive.py]: the filtered
    text editors ([StringEditor], [RealnameEditor], [EmailEditor],
    [UsernameEditor]) and the pop-up [Selector] with its dialog.

    Python objects are records threaded through a state-and-exception
    monad; the widgets of the urwid toolkit that the module calls into are
    an interface ([EditPrimitive]) or small state fields.  [PasswordEditor]
    and [IntegerEditor] only construct a toolkit widget and have no logic
    of their own; they are not embedded. *)

From Stdlib Require Import List ZArith NArith Bool String Ascii Lia Btauto.
Import ListNotations.

Set Implicit Arguments.
Set Warnings "-register-all".
Open Scope Z_scope.

(** ** Python values *)

Module Py.

(** A [str] is a sequence of Unicode code points, [len] counts them. *)
Definition char := N.
Definition str := list char.

Definition ord (a : ascii) : char := N_of_ascii a.

(** The code points of a source literal. *)
Definition lit (s : string) : str := map ord (list_ascii_of_string s).

Definition char_eqb (c d : char) : bool := N.eqb c d.
Definition str_eqb (s t : str) : bool :=
  if list_eq_dec N.eq_dec s t then true else false.

Inductive val : Type :=
| VNone
| VBool (b : bool)
| VInt (z : Z)
| VStr (s : str)
| VTuple (items : list val)
| VList (items : list val).

Inductive exn : Type :=
| SelectorError (args : list val)
| IndexError
| TypeError
| ValueError.

Inductive result (A : Type) : Type :=
| Ok (a : A)
| Raise (e : exn).
Arguments Ok {A} a.
Arguments Raise {A} e.

Definition isinstance_tuple (v : val) : bool :=
  match v with VTuple _ => true | _ => false end.

Definition isinstance_str (v : val) : bool :=
  match v with VStr _ => true | _ => false end.

(** Truth value of an object, as tested by [if x:]. *)
Definition truthy (v : val) : bool :=
  match v with
  | VNone => false
  | VBool b => b
  | VInt z => negb (z =? 0)
  | VStr s => negb (Nat.eqb (List.length s) 0)
  | VTuple l | VList l => negb (Nat.eqb (List.length l) 0)
  end.

(** [l[i]] on a sequence: a negative [i] counts from the end, anything
    outside [-len l <= i < len l] raises [IndexError]. *)
Definition seq_getitem (A : Type) (l : list A) (i : Z) : result A :=
  let n := Z.of_nat (List.length l) in
  let j := if i <? 0 then i + n else i in
  if (j <? 0) || (n <=? j) then Raise IndexError
  else match nth_error l (Z.to_nat j) with
       | Some x => Ok x
       | None => Raise IndexError
       end.

(** [x[i]] on an object. *)
Definition getitem (x : val) (i : Z) : result val :=
  match x with
  | VTuple l | VList l => seq_getitem l i
  | VStr s =>
      match seq_getitem s i with
      | Ok c => Ok (VStr [c])
      | Raise e => Raise e
      end
  | _ => Raise TypeError
  end.

(** [len(x)]. *)
Definition len (x : val) : result Z :=
  match x with
  | VStr s => Ok (Z.of_nat (List.length s))
  | VTuple l | VList l => Ok (Z.of_nat (List.length l))
  | _ => Raise TypeError
  end.

(** [s + x] for a [str] [s]: concatenation, [TypeError] unless [x] is a
    [str] too. *)
Definition str_add (s : str) (x : val) : result str :=
  match x with
  | VStr t => Ok (s ++ t)
  | _ => Raise TypeError
  end.

(** [max(l)] on a list of integers; [ValueError] on the empty list. *)
Definition max (l : list Z) : result Z :=
  match l with
  | [] => Raise ValueError
  | x :: xs => Ok (fold_left Z.max xs x)
  end.

(** [enumerate(l)]. *)
Fixpoint enumerate_from (A : Type) (start : Z) (l : list A) : list (Z * A) :=
  match l with
  | [] => []
  | x :: xs => (start, x) :: enumerate_from (start + 1) xs
  end.

Definition enumerate (A : Type) (l : list A) : list (Z * A) :=
  enumerate_from 0 l.

End Py.

Import Py.
Arguments lit s%_string.

(** ** A state-and-exception monad

    A method is a function from the object's state to an outcome and the
    state it leaves behind; what was mutated before an exception stays
    mutated. *)

Definition M (S A : Type) : Type := S -> result A * S.

Definition ret {S A : Type} (a : A) : M S A := fun s => (Ok a, s).

Definition bind {S A B : Type} (m : M S A) (k : A -> M S B) : M S B :=
  fun s =>
    match m s with
    | (Ok a, s') => k a s'
    | (Raise e, s') => (Raise e, s')
    end.

Definition raise {S A : Type} (e : exn) : M S A := fun s => (Raise e, s).

Definition lift {S A : Type} (r : result A) : M S A := fun s => (r, s).

Definition gets {S A : Type} (f : S -> A) : M S A := fun s => (Ok (f s), s).

Definition modify {S : Type} (f : S -> S) : M S unit := fun s => (Ok tt, f s).

Declare Scope py_scope.
Delimit Scope py_scope with py.
Notation "x <- m ;; k" := (bind m (fun x => k))
  (at level 61, m at next level, right associativity) : py_scope.
Notation "m ;; k" := (bind m (fun _ => k))
  (at level 61, right associativity) : py_scope.
Open Scope py_scope.

(** [for x in l: body x]. *)
Fixpoint for_each {S A : Type} (l : list A) (body : A -> M S unit) : M S unit :=
  match l with
  | [] => ret tt
  | x :: xs => body x ;; for_each xs body
  end.

(** [[f x for x in l]], and a loop that appends [f x] to a list. *)
Fixpoint map_m {S A B : Type} (f : A -> M S B) (l : list A) : M S (list B) :=
  match l with
  | [] => ret []
  | x :: xs => y <- f x ;; ys <- map_m f xs ;; ret (y :: ys)
  end.

(** ** The fragment of [re] the module uses

    Every pattern of the module is one bracket expression.  [re.match]
    anchors at the start of the subject, so such a pattern matches exactly
    when the subject is non-empty and its first character is in the set. *)

Module Re.

Inductive item : Type :=
| Single (c : char)
| Range (lo hi : char).

Definition is_char (a : ascii) (c : char) : bool := char_eqb c (ord a).

Definition is_alnum (c : char) : bool :=
  ((ord "a" <=? c) && (c <=? ord "z")
   || (ord "A" <=? c) && (c <=? ord "Z")
   || (ord "0" <=? c) && (c <=? ord "9"))%N.

(** The items of a bracket expression, read after its opening bracket:
    [x-y] is a range unless the hyphen is the last character of the set,
    a backslash makes the next punctuation character literal, and the
    closing bracket ends the pattern. *)
Fixpoint parse_set (p : str) : option (list item) :=
  match p with
  | [] => None
  | c :: rest =>
      if is_char "]" c then
        match rest with [] => Some [] | _ :: _ => None end
      else if is_char "\" c then
        match rest with
        | d :: rest' =>
            if is_alnum d then None
            else option_map (cons (Single d)) (parse_set rest')
        | [] => None
        end
      else
        match rest with
        | dash :: hi :: rest' =>
            if is_char "-" dash && negb (is_char "]" hi) then
              if is_char "\" hi || (hi <? c)%N then None
              else option_map (cons (Range c hi)) (parse_set rest')
            else option_map (cons (Single c)) (parse_set rest)
        | _ => option_map (cons (Single c)) (parse_set rest)
        end
  end.

Definition compile (pattern : str) : option (list item) :=
  match pattern with
  | c :: rest => if is_char "[" c then parse_set rest else None
  | [] => None
  end.

Definition item_matches (c : char) (i : item) : bool :=
  match i with
  | Single d => char_eqb c d
  | Range lo hi => ((lo <=? c) && (c <=? hi))%N
  end.

Definition in_set (items : list item) (c : char) : bool :=
  existsb (item_matches c) items.

(** [re.match(pattern, subject)]: the matched text, or [None]. *)
Definition match_ (pattern subject : str) : option str :=
  match compile pattern, subject with
  | Some items, c :: _ => if in_set items c then Some [c] else None
  | _, _ => None
  end.

Definition is_None (A : Type) (o : option A) : bool :=
  match o with None => true | Some _ => false end.

End Re.

(** ** The text editors *)

(** Modelled from the spec: the toolkit's text-editing primitive (urwid's
    [Edit]), "a focusable text-rendering primitive supporting get/set full
    text" that also takes the keys forwarded to it.  Its behaviour on a key
    is the toolkit's, so it is an interface here. *)
Class EditPrimitive (E : Type) : Type := {
  get_edit_text : E -> str;
  set_edit_text : str -> E -> E;
  edit_keypress : val -> str -> E -> val * E
}.

(** The calls a [StringEditor] makes on its [_edit] widget. *)
Inductive edit_call : Type :=
| CallSetEditText (text : str)
| CallKeypress (size : val) (key : str).

(** A [StringEditor] object: the wrapped [Edit], the [error] attribute and,
    as a ghost field, the calls made on [_edit] so far, oldest first. *)
Record StringEditor (E : Type) : Type := {
  _edit : E;
  error : val;
  calls : list edit_call
}.

Section Editors.

Context {E : Type} `{EditPrimitive E}.

Definition Edit_set_edit_text (text : str) : M (StringEditor E) unit :=
  modify (fun self =>
    {| _edit := set_edit_text text (_edit self);
       error := error self;
       calls := calls self ++ [CallSetEditText text] |}).

Definition Edit_keypress (size : val) (key : str) : M (StringEditor E) val :=
  fun self =>
    let (r, e) := edit_keypress size key (_edit self) in
    (Ok r, {| _edit := e;
              error := error self;
              calls := calls self ++ [CallKeypress size key] |}).

Definition set_error_attr (v : val) : M (StringEditor E) unit :=
  modify (fun self =>
    {| _edit := _edit self; error := v; calls := calls self |}).

Definition StringEditor_init (edit : E) : StringEditor E :=
  {| _edit := edit; error := VNone; calls := [] |}.

(** [WidgetWrap.keypress] hands the key to the wrapped widget. *)
Definition StringEditor_keypress (size : val) (key : str)
  : M (StringEditor E) val :=
  err <- gets (@error E) ;;
  (if truthy err then
     Edit_set_edit_text (lit "") ;;
     set_error_attr VNone
   else ret tt) ;;
  Edit_keypress size key.

Definition StringEditor_set_error (msg : str) : M (StringEditor E) unit :=
  set_error_attr (VStr msg) ;;
  Edit_set_edit_text msg.

Definition StringEditor_value : M (StringEditor E) str :=
  gets (fun self => get_edit_text (_edit self)).

Definition StringEditor_set_value (value : str) : M (StringEditor E) unit :=
  Edit_set_edit_text value.

Definition RealnameEditor_keypress (size : val) (key : str)
  : M (StringEditor E) val :=
  let realname := lit "[a-zA-Z0-9_\- ]" in
  if Re.is_None (Re.match_ realname key) then ret (VBool false)
  else StringEditor_keypress size key.

Definition EmailEditor_keypress (size : val) (key : str)
  : M (StringEditor E) val :=
  let realname := lit "[-a-zA-Z0-9_.@+=]" in
  if Re.is_None (Re.match_ realname key) then ret (VBool false)
  else StringEditor_keypress size key.

Definition UsernameEditor_keypress (size : val) (key : str)
  : M (StringEditor E) val :=
  value <- StringEditor_value ;;
  let userlen := Z.of_nat (List.length value) in
  let username :=
    if userlen =? 0 then lit "[a-z_]" else lit "[a-z0-9_-]" in
  if Re.is_None (Re.match_ username key) then ret (VBool false)
  else StringEditor_keypress size key.

End Editors.

(** ** The Selector and its pop-up dialog *)

(** A row of the pop-up: a [_PopUpButton] with its text, its cursor
    position and the index bound to its ['click'] signal by
    [connect_signal], or a plain [Text].  The display attributes given to
    [AttrWrap] are styling only and are left out. *)
Inductive row : Type :=
| PopUpButton (text : str) (cursor_position : Z) (click_arg : Z)
| TextRow (text : str).

(** A [_PopUpSelectDialog]: the rows of its pile and the focused row. *)
Record PopUpSelectDialog : Type := {
  group : list row;
  focus : row
}.

(** What a Selector does that its surroundings can observe, in program
    order: a signal emitted, the text of the button set, the index
    stored. *)
Inductive action : Type :=
| Emit (signal : str) (args : list val)
| SetText (text : str)
| StoreIndex (i : Z).

(** A [Selector] object.  [_button] is the text that the [SelectableIcon]
    shows; [_pop_up_widget] is the attribute of [PopUpLauncher], the open
    dialog if there is one.  The dialog's [parent] is the Selector that
    holds it.  [history] is a ghost field, oldest action first. *)
Record Selector : Type := {
  _options : list val;
  _button : str;
  _index : Z;
  _pop_up_widget : option PopUpSelectDialog;
  history : list action
}.

Definition _prefix : str := lit "(+) ".

Definition record (a : action) (self : Selector) : Selector :=
  {| _options := _options self;
     _button := _button self;
     _index := _index self;
     _pop_up_widget := _pop_up_widget self;
     history := history self ++ [a] |}.

Definition with_options (options : list val) (self : Selector) : Selector :=
  {| _options := options;
     _button := _button self;
     _index := _index self;
     _pop_up_widget := _pop_up_widget self;
     history := history self |}.

Definition with_button (text : str) (self : Selector) : Selector :=
  {| _options := _options self;
     _button := text;
     _index := _index self;
     _pop_up_widget := _pop_up_widget self;
     history := history self |}.

Definition with_index (i : Z) (self : Selector) : Selector :=
  {| _options := _options self;
     _button := _button self;
     _index := i;
     _pop_up_widget := _pop_up_widget self;
     history := history self |}.

Definition with_pop_up (w : option PopUpSelectDialog) (self : Selector)
  : Selector :=
  {| _options := _options self;
     _button := _button self;
     _index := _index self;
     _pop_up_widget := w;
     history := history self |}.

(** Modelled from the spec: the toolkit's "event/signal mechanism: named
    signal registration, emission with positional arguments".  The
    listeners are outside the module; an emission is recorded. *)
Definition Selector__emit (name : str) (args : list val) : M Selector unit :=
  modify (record (Emit name args)).

(** Modelled from the spec: [set_text] of the toolkit's selectable text
    control. *)
Definition SelectableIcon_set_text (text : str) : M Selector unit :=
  modify (fun self => record (SetText text) (with_button text self)).

(** Modelled from the spec: the overlay launcher "must support closing the
    overlay on request"; urwid's [PopUpLauncher.close_pop_up] drops the
    pop-up widget. *)
Definition PopUpLauncher_close_pop_up : M Selector unit :=
  modify (with_pop_up None).

(** The loop body of [Selector.__init__] up to the [append]. *)
Definition normalize {S : Type} (opt : val) : M S val :=
  if negb (isinstance_tuple opt) then
    if negb (isinstance_str opt) then
      raise (SelectorError [VStr (lit "invalid option %r"); opt])
    else ret (VTuple [opt; VBool true; opt])
  else
    n <- lift (len opt) ;;
    if n =? 1 then
      o0 <- lift (getitem opt 0) ;;
      ret (VTuple [o0; VBool true; o0])
    else if n =? 2 then
      o0 <- lift (getitem opt 0) ;;
      o1 <- lift (getitem opt 1) ;;
      o0' <- lift (getitem opt 0) ;;
      ret (VTuple [o0; o1; o0'])
    else if negb (n =? 3) then
      raise (SelectorError [VStr (lit "invalid option %r"); opt])
    else ret opt.

Definition Selector__set_index (val : Z) : M Selector unit :=
  options <- gets _options ;;
  opt <- lift (seq_getitem options val) ;;
  label <- lift (getitem opt 0) ;;
  text <- lift (str_add _prefix label) ;;
  SelectableIcon_set_text text ;;
  modify (fun self => record (StoreIndex val) (with_index val self)).

(** The [index] property. *)
Definition Selector_index : M Selector Z := gets _index.

(** The setter of the [index] property. *)
Definition Selector_index_setter (val : Z) : M Selector unit :=
  options <- gets _options ;;
  opt <- lift (seq_getitem options val) ;;
  value <- lift (getitem opt 2) ;;
  Selector__emit (lit "select") [value] ;;
  Selector__set_index val.

(** The [value] property. *)
Definition Selector_value : M Selector val :=
  options <- gets _options ;;
  i <- gets _index ;;
  opt <- lift (seq_getitem options i) ;;
  lift (getitem opt 2).

(** A new object, before [__init__] has assigned anything; no attribute is
    read before [__init__] assigns it. *)
Definition blank : Selector :=
  {| _options := [];
     _button := [];
     _index := 0;
     _pop_up_widget := None;
     history := [] |}.

Definition Selector_init (opts : list val) (index : Z) : M Selector unit :=
  modify (with_options []) ;;
  for_each opts (fun opt =>
    opt' <- normalize opt ;;
    modify (fun self => with_options (_options self ++ [opt']) self)) ;;
  modify (with_button _prefix) ;;
  Selector__set_index index ;;
  modify (with_pop_up None).

(** [Selector(opts, index)]: the outcome of [__init__] on a new object. *)
Definition Selector_new (opts : list val) (index : Z)
  : result unit * Selector :=
  Selector_init opts index blank.

Definition YesNo_new : result unit * Selector :=
  Selector_new [VStr (lit "Yes"); VStr (lit "No")] 0.

(** [_PopUpButton.states]. *)
Definition states (state : bool) : str :=
  if state then lit "(+) " else lit "( ) ".

(** [_PopUpButton(option, state)] with [click_arg] connected to its
    ['click'] signal. *)
Definition PopUpButton_init {S : Type} (option : val) (state : bool)
  (click_arg : Z) : M S row :=
  let p := states state in
  text <- lift (str_add p option) ;;
  ret (PopUpButton text (Z.of_nat (List.length p)) click_arg).

Definition PopUpSelectDialog_init (cur_index : Z)
  : M Selector PopUpSelectDialog :=
  options <- gets _options ;;
  group <- map_m (fun io : Z * val =>
      let (i, option) := io in
      selectable <- lift (getitem option 1) ;;
      if truthy selectable then
        label <- lift (getitem option 0) ;;
        PopUpButton_init label (i =? cur_index) i
      else
        label <- lift (getitem option 0) ;;
        text <- lift (str_add (lit "    ") label) ;;
        ret (TextRow text))
    (enumerate options) ;;
  focus <- lift (seq_getitem group cur_index) ;;
  ret {| group := group; focus := focus |}.

Definition PopUpSelectDialog_click (index : Z) : M Selector unit :=
  Selector_index_setter index ;;
  PopUpLauncher_close_pop_up.

Definition Selector_create_pop_up : M Selector PopUpSelectDialog :=
  i <- Selector_index ;;
  PopUpSelectDialog_init i.

(** Modelled from the spec: the overlay launcher calls "back into the
    widget to obtain the pop-up content"; urwid's
    [PopUpLauncher.open_pop_up] keeps what [create_pop_up] returns. *)
Definition PopUpLauncher_open_pop_up : M Selector unit :=
  w <- Selector_create_pop_up ;;
  modify (with_pop_up (Some w)).

(** The dictionary returned by [get_pop_up_parameters], by key. *)
Record pop_up_parameters : Type := {
  left_ : Z;
  top_ : Z;
  overlay_width : Z;
  overlay_height : Z
}.

Definition Selector_get_pop_up_parameters : M Selector pop_up_parameters :=
  options <- gets _options ;;
  lens <- map_m (fun o => o0 <- lift (getitem o 0) ;; lift (len o0)) options ;;
  longest <- lift (Py.max lens) ;;
  let width := longest + Z.of_nat (List.length _prefix) + 3 in
  i <- Selector_index ;;
  ret {| left_ := -1;
         top_ := - i - 1;
         overlay_width := width;
         overlay_height := Z.of_nat (List.length options) + 2 |}.

(** The ['click'] signal of a row fires: the handler connected in
    [_PopUpSelectDialog.__init__] runs with its bound index.  A [Text] row
    has no such signal. *)
Definition emit_click (r : row) : M Selector unit :=
  match r with
  | PopUpButton _ _ click_arg => PopUpSelectDialog_click click_arg
  | TextRow _ => ret tt
  end.

(** The user clicks row [i] of the open dialog. *)
Definition click_row (i : nat) : M Selector unit :=
  w <- gets _pop_up_widget ;;
  match w with
  | Some d =>
      match nth_error (group d) i with
      | Some r => emit_click r
      | None => ret tt
      end
  | None => ret tt
  end.

Inductive command : Type :=
| ACTIVATE
| OtherCommand (name : str).

Definition is_activate (c : option command) : bool :=
  match c with Some ACTIVATE => true | _ => false end.

Section Toolkit.

(** The toolkit's active key bindings ([_command_map]), and what its
    vertical container does with a key that the dialog hands on. *)
Variable command_map : str -> option command.
Variable Pile_keypress : val -> str -> M Selector val.

Definition PopUpButton_keypress (self : row) (size : val) (key : str)
  : M Selector val :=
  if negb (is_activate (command_map key)) then ret (VStr key)
  else emit_click self ;; ret VNone.

Definition PopUpSelectDialog_keypress (size : val) (key : str)
  : M Selector val :=
  if str_eqb key (lit "esc") then
    PopUpLauncher_close_pop_up ;; ret VNone
  else Pile_keypress size key.

Definition Selector_keypress (size : val) (key : str) : M Selector val :=
  if negb (is_activate (command_map key)) then ret (VStr key)
  else PopUpLauncher_open_pop_up ;; ret VNone.

End Toolkit.

(** ** Vocabulary of the specification *)

(** An Option of the data model: a label that is text, a selectable flag
    and a value. *)
Record Option_ : Type := {
  label : str;
  selectable : val;
  value : val
}.

(** The tuple that [_options] holds for an Option. *)
Definition stored (o : Option_) : val :=
  VTuple [VStr (label o); selectable o; value o].

(** The valid raw option shapes: bare text, or a grouping of one, two or
    three elements. *)
Definition valid_shape (opt : val) : bool :=
  match opt with
  | VStr _ => true
  | VTuple items =>
      (1 <=? Z.of_nat (List.length items))
      && (Z.of_nat (List.length items) <=? 3)
  | _ => false
  end.

(** The invalid ones: a bare element that is not text, or a grouping of
    length 0 or greater than 3. *)
Definition invalid_shape (opt : val) : bool :=
  match opt with
  | VStr _ => false
  | VTuple items =>
      (Z.of_nat (List.length items) =? 0)
      || (3 <? Z.of_nat (List.length items))
  | _ => true
  end.

(** The documented triple of a raw option of a valid shape. *)
Definition documented_triple (opt : val) : val :=
  match opt with
  | VStr s => VTuple [VStr s; VBool true; VStr s]
  | VTuple [label] => VTuple [label; VBool true; label]
  | VTuple [label; selectable] => VTuple [label; selectable; label]
  | other => other
  end.

(** The row that the pop-up shows for the Option at position [i] when
    position [cur_index] is highlighted, and the rows of a list of Options
    whose first position is [start]. *)
Definition row_of (cur_index i : Z) (o : Option_) : row :=
  if truthy (selectable o) then
    PopUpButton (states (i =? cur_index) ++ label o)
      (Z.of_nat (List.length (states (i =? cur_index)))) i
  else TextRow (lit "    " ++ label o).

Fixpoint rows_from (cur_index start : Z) (o : list Option_) : list row :=
  match o with
  | [] => []
  | x :: xs => row_of cur_index start x :: rows_from cur_index (start + 1) xs
  end.

Definition is_emit (a : action) : bool :=
  match a with Emit _ _ => true | _ => false end.

(** The character sets of the editors, as the specification names them. *)
Definition lower (c : char) : bool := ((ord "a" <=? c) && (c <=? ord "z"))%N.
Definition upper (c : char) : bool := ((ord "A" <=? c) && (c <=? ord "Z"))%N.
Definition digit (c : char) : bool := ((ord "0" <=? c) && (c <=? ord "9"))%N.

Definition realname_char (c : char) : bool :=
  lower c || upper c || digit c
  || char_eqb c (ord "_") || char_eqb c (ord "-") || char_eqb c (ord " ").

Definition email_char (c : char) : bool :=
  upper c || lower c || digit c
  || char_eqb c (ord "_") || char_eqb c (ord ".") || char_eqb c (ord "@")
  || char_eqb c (ord "+") || char_eqb c (ord "=") || char_eqb c (ord "-").

Definition username_first_char (c : char) : bool :=
  lower c || char_eqb c (ord "_").

Definition username_char (c : char) : bool :=
  lower c || digit c || char_eqb c (ord "_") || char_eqb c (ord "-").

(** A key passes a set when it has a first character and that character
    is in the set. *)
Definition first_char_in (allowed : char -> bool) (key : str) : bool :=
  match key with
  | c :: _ => allowed c
  | [] => false
  end.

Section Verdicts.

Context {E : Type} `{EditPrimitive E}.

(** The editor hands the key to [StringEditor.keypress], which ends with
    the key given to the wrapped [Edit]. *)
Definition forwards (keypress : val -> str -> M (StringEditor E) val)
  (size : val) (key : str) (self : StringEditor E) : Prop :=
  keypress size key self = StringEditor_keypress size key self
  /\ exists before,
      calls (snd (keypress size key self))
      = calls self ++ before ++ [CallKeypress size key].

(** The editor returns [False] and touches nothing. *)
Definition swallows (keypress : val -> str -> M (StringEditor E) val)
  (size : val) (key : str) (self : StringEditor E) : Prop :=
  keypress size key self = (Ok (VBool false), self).

End Verdicts.

(** Modelled from the spec: a sample text-editing primitive, a line of
    text with the cursor at its end: a printable single character is
    inserted, ["backspace"] erases, any other key is handed back. *)
Definition line_keypress (size : val) (key : str) (text : str) : val * str :=
  match key with
  | [c] =>
      if (32 <=? c)%N then (VNone, text ++ [c]) else (VStr key, text)
  | _ =>
      if str_eqb key (lit "backspace") then (VNone, removelast text)
      else (VStr key, text)
  end.

#[export] Instance LineEdit : EditPrimitive str := {|
  get_edit_text := fun text => text;
  set_edit_text := fun text _ => text;
  edit_keypress := line_keypress
|}.

(** The examples of the specification: the options of the [YesNo] control,
    and a list with a heading that cannot be selected. *)
Definition yes_no_options : list Option_ :=
  [{| label := lit "Yes"; selectable := VBool true; value := VStr (lit "Yes") |};
   {| label := lit "No"; selectable := VBool true; value := VStr (lit "No") |}].

Definition grouped_options : list Option_ :=
  [{| label := lit "Group"; selectable := VBool false;
      value := VStr (lit "Group") |};
   {| label := lit "A"; selectable := VBool true; value := VStr (lit "A") |};
   {| label := lit "B"; selectable := VBool true; value := VStr (lit "B") |}].

Definition grouped_selector : Selector :=
  snd (Selector_new
         [VTuple [VStr (lit "Group"); VBool false];
          VTuple [VStr (lit "A"); VBool true];
          VTuple [VStr (lit "B"); VBool true]] 1).

(** ** Vocabulary of the further properties *)

(** The Selector shows its current option: [_options[_index]] exists, its
    label is text, it has a value, and the button shows the prefix followed
    by that label. *)
Definition consistent (self : Selector) : Prop :=
  exists opt label value,
    seq_getitem (_options self) (_index self) = Ok opt
    /\ getitem opt 0 = Ok (VStr label)
    /\ getitem opt 2 = Ok value
    /\ _button self = _prefix ++ label.

(** The text that a row of the dialog displays. *)
Definition row_text (r : row) : str :=
  match r with
  | PopUpButton text _ _ => text
  | TextRow text => text
  end.

(** A stored option whose three fields may be anything. *)
Definition is_triple (opt : val) : bool :=
  match opt with
  | VTuple [_; _; _] => true
  | _ => false
  end.

(** The label of a stored option is not text. *)
Definition label_not_text (opt : val) : bool :=
  match opt with
  | VTuple (o0 :: _) => negb (isinstance_str o0)
  | _ => false
  end.

(** Modelled from the spec: sample surroundings for the examples, key
    bindings in which ["enter"] and [" "] activate, and a container that
    hands every key back. *)
Definition sample_command_map (key : str) : option command :=
  if str_eqb key (lit "enter") || str_eqb key (lit " ") then Some ACTIVATE
  else None.

Definition no_navigation (size : val) (key : str) : M Selector val :=
  ret (VStr key).

(** What the program and the user can do to a Selector once it is built:
    assign the index, open or close the pop-up, and, on an open dialog,
    press escape or click a row. *)
Inductive operation : Type :=
| AssignIndex (val : Z)
| OpenPopUp
| ClosePopUp
| PressEscape
| ClickRow (i : nat).

Definition perform (op : operation) : M Selector unit :=
  match op with
  | AssignIndex val => Selector_index_setter val
  | OpenPopUp => PopUpLauncher_open_pop_up
  | ClosePopUp => PopUpLauncher_close_pop_up
  | PressEscape =>
      w <- gets _pop_up_widget ;;
      match w with
      | Some _ =>
          PopUpSelectDialog_keypress no_navigation VNone (lit "esc") ;;
          ret tt
      | None => ret tt
      end
  | ClickRow i => click_row i
  end.

(** The operations one after the other; an operation that raises leaves the
    state it had reached, and the next one goes on from there. *)
Fixpoint perform_all (ops : list operation) (self : Selector) : Selector :=
  match ops with
  | [] => self
  | op :: rest => perform_all rest (snd (perform op self))
  end.

(** ** Properties of the Python primitives *)

Lemma bind_ok {S A B : Type} (m : M S A) (k : A -> M S B) s a s' :
  m s = (Ok a, s') -> bind m k s = k a s'.
Proof. intros Hm. unfold bind. now rewrite Hm. Qed.

Lemma bind_raise {S A B : Type} (m : M S A) (k : A -> M S B) s e s' :
  m s = (Raise e, s') -> bind m k s = (Raise e, s').
Proof. intros Hm. unfold bind. now rewrite Hm. Qed.

Lemma bind_bind {S A B C : Type} (m : M S A) (k : A -> M S B)
  (k' : B -> M S C) s :
  bind (bind m k) k' s = bind m (fun a => bind (k a) k') s.
Proof. unfold bind. now destruct (m s) as [[a | e] s']. Qed.

Lemma bind_lift {S A B : Type} (r : result A) (k : A -> M S B) s :
  bind (lift r) k s
  = match r with Ok a => k a s | Raise e => (Raise e, s) end.
Proof. reflexivity. Qed.

Lemma bind_ret {S A B : Type} (a : A) (k : A -> M S B) s :
  bind (ret a) k s = k a s.
Proof. reflexivity. Qed.

Lemma bind_gets {S A B : Type} (f : S -> A) (k : A -> M S B) s :
  bind (gets f) k s = k (f s) s.
Proof. reflexivity. Qed.

Lemma bind_modify {S B : Type} (f : S -> S) (k : unit -> M S B) s :
  bind (modify f) k s = k tt (f s).
Proof. reflexivity. Qed.

(** Run the statements at the head of a method body. *)
Ltac run :=
  repeat first
    [ rewrite bind_bind | rewrite bind_lift | rewrite bind_ret
    | rewrite bind_gets | rewrite bind_modify ];
  cbv beta iota.

Lemma seq_getitem_nonneg (A : Type) (l : list A) (i : Z) (x : A) :
  0 <= i -> nth_error l (Z.to_nat i) = Some x -> seq_getitem l i = Ok x.
Proof.
  intros Hi Hnth.
  assert (Hlt : (Z.to_nat i < List.length l)%nat)
    by (apply nth_error_Some; congruence).
  unfold seq_getitem.
  destruct (Z.ltb_spec i 0) as [Hneg | _]; [lia |].
  destruct (Z.ltb_spec i 0) as [Hneg | _]; [lia |].
  destruct (Z.leb_spec (Z.of_nat (List.length l)) i) as [Hbig | _]; [lia |].
  simpl. now rewrite Hnth.
Qed.

Lemma seq_getitem_of_nat (A : Type) (l : list A) (i : nat) (x : A) :
  nth_error l i = Some x -> seq_getitem l (Z.of_nat i) = Ok x.
Proof.
  intros Hnth. apply seq_getitem_nonneg; [lia |].
  now rewrite Nat2Z.id.
Qed.

Lemma seq_getitem_out_of_range (A : Type) (l : list A) (i : Z) :
  i < - Z.of_nat (List.length l) \/ Z.of_nat (List.length l) <= i ->
  seq_getitem l i = Raise IndexError.
Proof.
  intros Hout. unfold seq_getitem.
  destruct (Z.ltb_spec i 0) as [Hneg | Hpos].
  - destruct (Z.ltb_spec (i + Z.of_nat (List.length l)) 0) as [_ | Hge];
      [reflexivity | lia].
  - destruct (Z.ltb_spec i 0) as [Hneg | _]; [lia |].
    destruct (Z.leb_spec (Z.of_nat (List.length l)) i) as [_ | Hlt];
      [reflexivity | lia].
Qed.

Lemma seq_getitem_in_range (A : Type) (l : list A) (i : Z) :
  - Z.of_nat (List.length l) <= i < Z.of_nat (List.length l) ->
  exists x, seq_getitem l i = Ok x /\ In x l.
Proof.
  intros Hin. unfold seq_getitem.
  set (n := Z.of_nat (List.length l)) in *.
  set (j := if i <? 0 then i + n else i).
  assert (Hj : 0 <= j < n).
  { subst j. destruct (Z.ltb_spec i 0); lia. }
  destruct (Z.ltb_spec j 0) as [Hneg | _]; [lia |].
  destruct (Z.leb_spec n j) as [Hbig | _]; [lia |]. simpl.
  destruct (nth_error l (Z.to_nat j)) as [x |] eqn:Hnth.
  - exists x. split; [reflexivity |]. eapply nth_error_In; eassumption.
  - apply nth_error_None in Hnth. subst n. lia.
Qed.

(** ** Option normalization *)

Lemma invalid_shape_spec (opt : val) :
  invalid_shape opt = negb (valid_shape opt).
Proof.
  destruct opt as [| b | z | s | items | items]; try reflexivity.
  unfold invalid_shape, valid_shape.
  destruct (Z.eqb_spec (Z.of_nat (List.length items)) 0);
    destruct (Z.ltb_spec 3 (Z.of_nat (List.length items)));
    destruct (Z.leb_spec 1 (Z.of_nat (List.length items)));
    destruct (Z.leb_spec (Z.of_nat (List.length items)) 3);
    simpl; try reflexivity; lia.
Qed.

Lemma normalize_valid (S : Type) (opt : val) (s : S) :
  valid_shape opt = true ->
  normalize opt s = (Ok (documented_triple opt), s).
Proof.
  intros Hvalid.
  destruct opt as [| b | z | t | items | items];
    try discriminate Hvalid; try reflexivity.
  destruct items as [| o0 [| o1 [| o2 [| o3 rest]]]];
    try discriminate Hvalid; try reflexivity.
  exfalso. unfold valid_shape in Hvalid.
  apply andb_prop in Hvalid as [_ Hle]. apply Z.leb_le in Hle.
  cbn [List.length] in Hle. lia.
Qed.

Lemma normalize_invalid (S : Type) (opt : val) (s : S) :
  invalid_shape opt = true ->
  normalize opt s
  = (Raise (SelectorError [VStr (lit "invalid option %r"); opt]), s).
Proof.
  intros Hinvalid.
  destruct opt as [| b | z | t | items | items];
    try discriminate Hinvalid; try reflexivity.
  destruct items as [| o0 [| o1 [| o2 [| o3 rest]]]];
    try discriminate Hinvalid; try reflexivity.
  unfold normalize, bind, lift. cbn [isinstance_tuple negb len fst snd].
  set (n := Z.of_nat (List.length (o0 :: o1 :: o2 :: o3 :: rest))).
  assert (Hn : 4 <= n) by (subst n; cbn [List.length]; lia).
  destruct (Z.eqb_spec n 1); [lia |].
  destruct (Z.eqb_spec n 2); [lia |].
  destruct (Z.eqb_spec n 3); [lia |].
  reflexivity.
Qed.

(** The normalization loop of [__init__] on valid options appends the
    documented triples, in order. *)
Lemma normalization_loop_valid (opts : list val) (self : Selector) :
  forallb valid_shape opts = true ->
  for_each opts (fun opt =>
    opt' <- normalize opt ;;
    modify (fun self => with_options (_options self ++ [opt']) self)) self
  = (Ok tt, with_options (_options self ++ map documented_triple opts) self).
Proof.
  revert self. induction opts as [| opt opts IH]; intros self Hvalid.
  - simpl. rewrite app_nil_r. now destruct self.
  - simpl in Hvalid. apply andb_prop in Hvalid as [Hopt Hopts].
    cbn [for_each]. unfold bind at 1. unfold bind at 1.
    rewrite (normalize_valid _ _ Hopt). cbn [modify].
    rewrite (IH _ Hopts). cbn [with_options _options map].
    now rewrite <- app_assoc.
Qed.

(** The loop stops at the first invalid option with the error that names
    it; the options before it have been appended. *)
Lemma normalization_loop_invalid (before after : list val) (bad : val)
  (self : Selector) :
  forallb valid_shape before = true ->
  invalid_shape bad = true ->
  for_each (before ++ bad :: after) (fun opt =>
    opt' <- normalize opt ;;
    modify (fun self => with_options (_options self ++ [opt']) self)) self
  = (Raise (SelectorError [VStr (lit "invalid option %r"); bad]),
     with_options (_options self ++ map documented_triple before) self).
Proof.
  revert self. induction before as [| opt before IH]; intros self Hvalid Hbad.
  - cbn [app for_each map]. unfold bind at 1. unfold bind at 1.
    rewrite (normalize_invalid _ _ Hbad). rewrite app_nil_r.
    now destruct self.
  - simpl in Hvalid. apply andb_prop in Hvalid as [Hopt Hopts].
    cbn [app for_each]. unfold bind at 1. unfold bind at 1.
    rewrite (normalize_valid _ _ Hopt). cbn [modify].
    rewrite (IH _ Hopts Hbad). cbn [with_options _options map].
    now rewrite <- app_assoc.
Qed.

(** [_set_index] either raises [IndexError] or [TypeError] and changes
    nothing, or sets the button text and stores the index; it never emits a
    signal and never touches the options. *)
Lemma set_index_outcome (val : Z) (self : Selector) :
  (exists e, Selector__set_index val self = (Raise e, self)
             /\ (e = IndexError \/ e = TypeError))
  \/ (exists text,
        Selector__set_index val self
        = (Ok tt, record (StoreIndex val)
                    (with_index val
                       (record (SetText text) (with_button text self))))).
Proof.
  unfold Selector__set_index, bind, gets, lift.
  destruct (seq_getitem (_options self) val) as [opt | e] eqn:Hopt.
  - destruct (getitem opt 0) as [lbl | e] eqn:Hlbl.
    + destruct lbl as [| b | z | t | items | items]; simpl;
        try (left; exists TypeError; split; [reflexivity | now right]).
      right. now exists (_prefix ++ t).
    + left. exists e. split; [reflexivity |].
      destruct opt as [| b | z | t | items | items]; simpl in Hlbl;
        try (injection Hlbl as <-; now right).
      * unfold seq_getitem in Hlbl.
        destruct ((_ <? 0) || _); [injection Hlbl as <-; now left |].
        destruct (nth_error t _); [discriminate |].
        injection Hlbl as <-; now left.
      * unfold seq_getitem in Hlbl.
        destruct ((_ <? 0) || _); [injection Hlbl as <-; now left |].
        destruct (nth_error items _); [discriminate |].
        injection Hlbl as <-; now left.
      * unfold seq_getitem in Hlbl.
        destruct ((_ <? 0) || _); [injection Hlbl as <-; now left |].
        destruct (nth_error items _); [discriminate |].
        injection Hlbl as <-; now left.
  - left. exists e. split; [reflexivity |].
    unfold seq_getitem in Hopt.
    destruct ((_ <? 0) || _); [injection Hopt as <-; now left |].
    destruct (nth_error (_options self) _); [discriminate |].
    injection Hopt as <-; now left.
Qed.

Lemma documented_triple_shape (opt : val) :
  valid_shape opt = true ->
  exists o0 o1 o2, documented_triple opt = VTuple [o0; o1; o2].
Proof.
  intros Hvalid.
  destruct opt as [| b | z | t | items | items]; try discriminate Hvalid.
  - now exists (VStr t), (VBool true), (VStr t).
  - destruct items as [| o0 [| o1 [| o2 [| o3 rest]]]];
      try discriminate Hvalid.
    + now exists o0, (VBool true), o0.
    + now exists o0, o1, o0.
    + now exists o0, o1, o2.
    + exfalso. unfold valid_shape in Hvalid.
      apply andb_prop in Hvalid as [_ Hle]. apply Z.leb_le in Hle.
      cbn [List.length] in Hle. lia.
Qed.

Lemma set_index_on_triple (val : Z) (self : Selector) (o0 o1 o2 : Py.val) :
  seq_getitem (_options self) val = Ok (VTuple [o0; o1; o2]) ->
  Selector__set_index val self
  = match o0 with
    | VStr t =>
        (Ok tt, record (StoreIndex val)
                  (with_index val
                     (record (SetText (_prefix ++ t))
                        (with_button (_prefix ++ t) self))))
    | _ => (Raise TypeError, self)
    end.
Proof.
  intros Hopt. unfold Selector__set_index, bind, gets, lift.
  rewrite Hopt. cbn [getitem seq_getitem]. simpl.
  now destruct o0.
Qed.

(** What [Selector(opts, index)] does once the options are known to be
    valid: the documented triples are stored, the button shows the prefix,
    and [_set_index] decides the outcome. *)
Lemma Selector_new_valid (opts : list val) (index : Z) :
  forallb valid_shape opts = true ->
  Selector_new opts index
  = match Selector__set_index index
            (with_button _prefix
               (with_options (map documented_triple opts) blank)) with
    | (Ok _, self) => (Ok tt, with_pop_up None self)
    | (Raise e, self) => (Raise e, self)
    end.
Proof.
  intros Hvalid. unfold Selector_new, Selector_init.
  unfold bind at 1. cbn [modify]. unfold bind at 1.
  rewrite normalization_loop_valid by assumption.
  unfold bind at 1. cbn [modify]. unfold bind.
  cbn [with_options _options blank app].
  destruct (Selector__set_index index _) as [[[] | e] self]; reflexivity.
Qed.

Lemma Selector_new_invalid (before after : list val) (bad : val) (index : Z) :
  forallb valid_shape before = true ->
  invalid_shape bad = true ->
  Selector_new (before ++ bad :: after) index
  = (Raise (SelectorError [VStr (lit "invalid option %r"); bad]),
     with_options (map documented_triple before) blank).
Proof.
  intros Hvalid Hbad. unfold Selector_new, Selector_init.
  unfold bind at 1. cbn [modify]. unfold bind at 1.
  now rewrite normalization_loop_invalid by assumption.
Qed.

(** The four valid shapes, one by one, through the code of the loop. *)
Lemma normalize_shapes (S : Type) (s : S) (text : str) (o0 o1 o2 : val) :
  normalize (VStr text) s = (Ok (VTuple [VStr text; VBool true; VStr text]), s)
  /\ normalize (VTuple [o0]) s = (Ok (VTuple [o0; VBool true; o0]), s)
  /\ normalize (VTuple [o0; o1]) s = (Ok (VTuple [o0; o1; o0]), s)
  /\ normalize (VTuple [o0; o1; o2]) s = (Ok (VTuple [o0; o1; o2]), s).
Proof. repeat split. Qed.

(** C1. For raw options that all have a valid shape (bare text, or a
    grouping of one, two or three elements), Selector construction stores,
    option by option and in order, the documented triple: [(s, True, s)]
    for bare text [s], [(label, True, label)] for [(label,)],
    [(label, selectable, label)] for [(label, selectable)], and a
    three-element grouping unchanged. *)
Theorem construction_stores_documented_triples (opts : list val) (index : Z) :
  forallb valid_shape opts = true ->
  _options (snd (Selector_new opts index)) = map documented_triple opts.
Proof.
  intros Hvalid. rewrite Selector_new_valid by assumption.
  destruct (set_index_outcome index
              (with_button _prefix
                 (with_options (map documented_triple opts) blank)))
    as [[e [-> _]] | [text ->]]; reflexivity.
Qed.

Lemma construction_stores_documented_triples_witness :
  _options (snd (Selector_new
      [VStr (lit "Yes");
       VTuple [VStr (lit "A")];
       VTuple [VStr (lit "B"); VBool false];
       VTuple [VStr (lit "C"); VBool true; VInt 7]] 0))
  = [VTuple [VStr (lit "Yes"); VBool true; VStr (lit "Yes")];
     VTuple [VStr (lit "A"); VBool true; VStr (lit "A")];
     VTuple [VStr (lit "B"); VBool false; VStr (lit "B")];
     VTuple [VStr (lit "C"); VBool true; VInt 7]].
Proof.
  apply (construction_stores_documented_triples
           [VStr (lit "Yes");
            VTuple [VStr (lit "A")];
            VTuple [VStr (lit "B"); VBool false];
            VTuple [VStr (lit "C"); VBool true; VInt 7]] 0).
  reflexivity.
Defined.

(** C2. When a raw option has an invalid shape (a bare element that is not
    text, or a grouping of length 0 or greater than 3) and the options
    before it are valid, Selector construction raises [SelectorError] with
    that option among its arguments.  When every option is valid, no
    [SelectorError] is raised. *)
Theorem construction_raises_SelectorError (opts : list val) (index : Z) :
  (forall before bad after,
      opts = before ++ bad :: after ->
      forallb valid_shape before = true ->
      invalid_shape bad = true ->
      fst (Selector_new opts index)
      = Raise (SelectorError [VStr (lit "invalid option %r"); bad]))
  /\ (forallb valid_shape opts = true ->
      forall args, fst (Selector_new opts index) <> Raise (SelectorError args)).
Proof.
  split.
  - intros before bad after -> Hvalid Hbad.
    now rewrite Selector_new_invalid by assumption.
  - intros Hvalid args. rewrite Selector_new_valid by assumption.
    destruct (set_index_outcome index
                (with_button _prefix
                   (with_options (map documented_triple opts) blank)))
      as [[e [-> [-> | ->]]] | [text ->]]; discriminate.
Qed.

Lemma construction_raises_SelectorError_witness :
  fst (Selector_new [VStr (lit "Yes"); VTuple []; VInt 3] 0)
  = Raise (SelectorError [VStr (lit "invalid option %r"); VTuple []])
  /\ forall args,
      fst (Selector_new [VStr (lit "Yes"); VStr (lit "No")] 0)
      <> Raise (SelectorError args).
Proof.
  split.
  - apply (proj1 (construction_raises_SelectorError
                    [VStr (lit "Yes"); VTuple []; VInt 3] 0)
             [VStr (lit "Yes")] (VTuple []) [VInt 3]); reflexivity.
  - apply (proj2 (construction_raises_SelectorError
                    [VStr (lit "Yes"); VStr (lit "No")] 0)); reflexivity.
Defined.

(** ** The index setter *)

Lemma getitem_triple_0 (o0 o1 o2 : val) :
  getitem (VTuple [o0; o1; o2]) 0 = Ok o0.
Proof. reflexivity. Qed.

Lemma getitem_triple_1 (o0 o1 o2 : val) :
  getitem (VTuple [o0; o1; o2]) 1 = Ok o1.
Proof. reflexivity. Qed.

Lemma getitem_triple_2 (o0 o1 o2 : val) :
  getitem (VTuple [o0; o1; o2]) 2 = Ok o2.
Proof. reflexivity. Qed.

Lemma getitem_stored_0 (x : Option_) : getitem (stored x) 0 = Ok (VStr (label x)).
Proof. reflexivity. Qed.

Lemma getitem_stored_1 (x : Option_) : getitem (stored x) 1 = Ok (selectable x).
Proof. reflexivity. Qed.

Lemma getitem_stored_2 (x : Option_) : getitem (stored x) 2 = Ok (value x).
Proof. reflexivity. Qed.

(** The setter on an option that is a stored triple with a text label:
    emit, then set the text, then store. *)
Lemma index_setter_on_stored (self : Selector) (val : Z) (oi : Option_) :
  seq_getitem (_options self) val = Ok (stored oi) ->
  Selector_index_setter val self
  = (Ok tt,
     record (StoreIndex val)
       (with_index val
          (record (SetText (_prefix ++ label oi))
             (with_button (_prefix ++ label oi)
                (record (Emit (lit "select") [value oi]) self))))).
Proof.
  intros Hopt.
  unfold Selector_index_setter, Selector__emit, bind, gets, lift, modify.
  rewrite Hopt. unfold stored. rewrite getitem_triple_2.
  erewrite set_index_on_triple by exact Hopt.
  reflexivity.
Qed.

(** C3. On a Selector whose option [i] ([0 <= i], in range) is a stored
    triple with a text label, assigning [index = i] succeeds and does, in
    this order and nothing else: emit one ["select"] signal carrying the
    value of option [i], set the button text to the prefix followed by the
    label of option [i], store [i].  Afterwards [value] returns the value
    of option [i], [index] returns [i] and the button shows prefix +
    label. *)
Theorem index_setter_effects (self : Selector) (i : Z) (oi : Option_) :
  0 <= i ->
  nth_error (_options self) (Z.to_nat i) = Some (stored oi) ->
  exists after,
    Selector_index_setter i self = (Ok tt, after)
    /\ history after
       = history self
         ++ [Emit (lit "select") [value oi];
             SetText (_prefix ++ label oi);
             StoreIndex i]
    /\ Selector_value after = (Ok (value oi), after)
    /\ Selector_index after = (Ok i, after)
    /\ _button after = _prefix ++ label oi
    /\ _options after = _options self
    /\ _pop_up_widget after = _pop_up_widget self.
Proof.
  intros Hi Hnth.
  pose proof (@seq_getitem_nonneg _ _ _ _ Hi Hnth) as Hget.
  eexists. split; [apply index_setter_on_stored; exact Hget |].
  repeat split.
  - cbn [history record with_index with_button].
    now rewrite <- !app_assoc.
  - unfold Selector_value, bind, gets, lift.
    cbn [_options _index record with_index with_button].
    rewrite Hget. reflexivity.
Qed.

Lemma index_setter_effects_witness :
  exists after,
    Selector_index_setter 1 (snd YesNo_new) = (Ok tt, after)
    /\ history after
       = history (snd YesNo_new)
         ++ [Emit (lit "select") [VStr (lit "No")];
             SetText (lit "(+) No");
             StoreIndex 1]
    /\ Selector_value after = (Ok (VStr (lit "No")), after)
    /\ Selector_index after = (Ok 1, after)
    /\ _button after = lit "(+) No"
    /\ _options after = _options (snd YesNo_new)
    /\ _pop_up_widget after = _pop_up_widget (snd YesNo_new).
Proof.
  apply (@index_setter_effects (snd YesNo_new) 1
           {| label := lit "No"; selectable := VBool true;
              value := VStr (lit "No") |});
    [lia | reflexivity].
Defined.

(** ** The initial index *)

(** C10, as stated, fails: on the two options of [YesNo] the initial index
    [-1] is outside [0 <= index < 2], yet construction succeeds; the button
    shows the last option and [-1] is stored. *)
Lemma construction_negative_index_counterexample :
  forallb valid_shape [VStr (lit "Yes"); VStr (lit "No")] = true
  /\ ~ (0 <= -1 < Z.of_nat (List.length [VStr (lit "Yes"); VStr (lit "No")]))
  /\ Selector_new [VStr (lit "Yes"); VStr (lit "No")] (-1)
     = (Ok tt,
        {| _options :=
             [VTuple [VStr (lit "Yes"); VBool true; VStr (lit "Yes")];
              VTuple [VStr (lit "No"); VBool true; VStr (lit "No")]];
           _button := lit "(+) No";
           _index := -1;
           _pop_up_widget := None;
           history := [SetText (lit "(+) No"); StoreIndex (-1)] |}).
Proof.
  split; [reflexivity |]. split; [simpl; lia | reflexivity].
Qed.

(** C10, amended.  For valid options of length [n]: an initial index with
    [index < -n] or [n <= index] makes construction fail with [IndexError]
    (so not with [SelectorError]) before anything is emitted or shown; an
    index with [-n <= index < n] never gives [IndexError] (a negative one
    counts from the end); and whatever the index, construction emits no
    signal. *)
Theorem construction_index_range (opts : list val) (index : Z) :
  forallb valid_shape opts = true ->
  (index < - Z.of_nat (List.length opts) \/ Z.of_nat (List.length opts) <= index ->
   exists self,
     Selector_new opts index = (Raise IndexError, self)
     /\ history self = [])
  /\ (- Z.of_nat (List.length opts) <= index < Z.of_nat (List.length opts) ->
      fst (Selector_new opts index) <> Raise IndexError)
  /\ existsb is_emit (history (snd (Selector_new opts index))) = false.
Proof.
  intros Hvalid. rewrite Selector_new_valid by assumption.
  set (self := with_button _prefix
                 (with_options (map documented_triple opts) blank)).
  assert (Hlen : List.length (_options self) = List.length opts)
    by apply length_map.
  repeat split.
  - intros Hout. exists self. split; [| reflexivity].
    unfold Selector__set_index, bind, gets, lift.
    rewrite seq_getitem_out_of_range; [reflexivity |].
    now rewrite Hlen.
  - intros Hin.
    destruct (@seq_getitem_in_range _ (_options self) index)
      as [opt [Hget Hmem]]; [now rewrite Hlen |].
    apply in_map_iff in Hmem as [raw [<- Hraw]].
    destruct (@documented_triple_shape raw) as [o0 [o1 [o2 Hshape]]].
    { rewrite forallb_forall in Hvalid. now apply Hvalid. }
    rewrite Hshape in Hget.
    rewrite (set_index_on_triple _ _ Hget).
    destruct o0; discriminate.
  - destruct (set_index_outcome index self)
      as [[e [-> _]] | [text ->]]; reflexivity.
Qed.

Lemma construction_index_range_witness :
  (exists self,
      Selector_new [VStr (lit "Yes"); VStr (lit "No")] (-3)
      = (Raise IndexError, self)
      /\ history self = [])
  /\ fst (Selector_new [VStr (lit "Yes"); VStr (lit "No")] (-2))
     <> Raise IndexError
  /\ existsb is_emit
       (history (snd (Selector_new [VStr (lit "Yes"); VStr (lit "No")] 1)))
     = false.
Proof.
  split; [| split].
  - apply (proj1 (@construction_index_range
                    [VStr (lit "Yes"); VStr (lit "No")] (-3) eq_refl)).
    left. simpl. lia.
  - apply (proj1 (proj2 (@construction_index_range
                           [VStr (lit "Yes"); VStr (lit "No")] (-2) eq_refl))).
    simpl. lia.
  - apply (proj2 (proj2 (@construction_index_range
                           [VStr (lit "Yes"); VStr (lit "No")] 1 eq_refl))).
Defined.

(** ** The geometry of the pop-up *)

Lemma label_lengths (S : Type) (o : list Option_) (s : S) :
  map_m (fun opt => o0 <- lift (getitem opt 0) ;; lift (len o0))
    (map stored o) s
  = (Ok (map (fun x => Z.of_nat (List.length (label x))) o), s).
Proof.
  induction o as [| x o IH]; [reflexivity |].
  cbn [map map_m]. unfold bind at 1. unfold bind at 1.
  unfold stored at 1. unfold lift at 1. rewrite getitem_triple_0.
  unfold lift at 1. cbn [len]. unfold bind at 1. rewrite IH.
  reflexivity.
Qed.

Lemma fold_max_spec (xs : list Z) (x : Z) :
  (fold_left Z.max xs x = x \/ In (fold_left Z.max xs x) xs)
  /\ x <= fold_left Z.max xs x
  /\ Forall (fun y => y <= fold_left Z.max xs x) xs.
Proof.
  revert x. induction xs as [| y xs IH]; intros x; cbn [fold_left].
  - split; [now left |]. split; [lia | constructor].
  - destruct (IH (Z.max x y)) as [Hmem [Hle Hall]].
    split; [| split].
    + destruct Hmem as [Heq | Hin].
      * rewrite Heq. destruct (Z.max_spec x y) as [[_ ->] | [_ ->]].
        -- right. now left.
        -- now left.
      * right. now right.
    + lia.
    + constructor; [lia | assumption].
Qed.

Lemma py_max_spec (l : list Z) :
  l <> [] ->
  exists m, Py.max l = Ok m /\ In m l /\ Forall (fun y => y <= m) l.
Proof.
  destruct l as [| x xs]; [congruence |]. intros _.
  exists (fold_left Z.max xs x).
  destruct (fold_max_spec xs x) as [Hmem [Hle Hall]].
  split; [reflexivity |]. split.
  - destruct Hmem as [-> | Hin]; [now left | now right].
  - now constructor.
Qed.

(** C4. On a Selector with a non-empty list of options (stored triples with
    text labels), [get_pop_up_parameters] returns: overlay width = the
    largest label length + the length of the prefix + 3, overlay height =
    the number of options + 2, top = -(index + 1), left = -1; and it
    changes nothing. *)
Theorem pop_up_geometry (self : Selector) (o : list Option_) :
  _options self = map stored o ->
  o <> [] ->
  exists longest,
    Selector_get_pop_up_parameters self
    = (Ok {| left_ := -1;
             top_ := - (_index self + 1);
             overlay_width := longest + Z.of_nat (List.length _prefix) + 3;
             overlay_height := Z.of_nat (List.length o) + 2 |},
       self)
    /\ (exists x, In x o /\ Z.of_nat (List.length (label x)) = longest)
    /\ (forall x, In x o -> Z.of_nat (List.length (label x)) <= longest).
Proof.
  intros Hopts Hne.
  destruct (@py_max_spec (map (fun x => Z.of_nat (List.length (label x))) o))
    as [longest [Hmax [Hmem Hall]]].
  { destruct o; [congruence | discriminate]. }
  exists longest. split; [| split].
  - unfold Selector_get_pop_up_parameters.
    unfold bind at 1. cbn [gets]. unfold bind at 1.
    rewrite Hopts, label_lengths.
    unfold bind at 1. unfold lift at 1. rewrite Hmax.
    unfold bind, Selector_index, gets, ret.
    rewrite length_map.
    replace (- _index self - 1) with (- (_index self + 1)) by lia.
    reflexivity.
  - apply in_map_iff in Hmem as [x [Hx Hin]]. now exists x.
  - intros x Hin. rewrite Forall_forall in Hall.
    apply Hall. apply in_map_iff. now exists x.
Qed.

Lemma pop_up_geometry_witness :
  exists longest,
    Selector_get_pop_up_parameters (snd YesNo_new)
    = (Ok {| left_ := -1;
             top_ := - (0 + 1);
             overlay_width := longest + 4 + 3;
             overlay_height := 2 + 2 |},
       snd YesNo_new)
    /\ (exists x,
          In x [{| label := lit "Yes"; selectable := VBool true;
                   value := VStr (lit "Yes") |};
                {| label := lit "No"; selectable := VBool true;
                   value := VStr (lit "No") |}]
          /\ Z.of_nat (List.length (label x)) = longest)
    /\ (forall x,
          In x [{| label := lit "Yes"; selectable := VBool true;
                   value := VStr (lit "Yes") |};
                {| label := lit "No"; selectable := VBool true;
                   value := VStr (lit "No") |}]
          -> Z.of_nat (List.length (label x)) <= longest).
Proof.
  apply (@pop_up_geometry (snd YesNo_new)
           [{| label := lit "Yes"; selectable := VBool true;
               value := VStr (lit "Yes") |};
            {| label := lit "No"; selectable := VBool true;
               value := VStr (lit "No") |}]);
    [reflexivity | discriminate].
Defined.

(** ** The pop-up dialog *)

Lemma dialog_rows (S : Type) (cur_index start : Z) (o : list Option_) (s : S) :
  map_m (fun io : Z * val =>
      let (i, option) := io in
      selectable <- lift (getitem option 1) ;;
      if truthy selectable then
        label <- lift (getitem option 0) ;;
        PopUpButton_init label (i =? cur_index) i
      else
        label <- lift (getitem option 0) ;;
        text <- lift (str_add (lit "    ") label) ;;
        ret (TextRow text))
    (enumerate_from start (map stored o)) s
  = (Ok (rows_from cur_index start o), s).
Proof.
  revert start. induction o as [| x o IH]; intros start; [reflexivity |].
  cbn [map enumerate_from map_m rows_from]. run.
  rewrite getitem_stored_1. unfold row_of.
  destruct (truthy (selectable x)); run; rewrite getitem_stored_0.
  - unfold PopUpButton_init. run. cbn [str_add]. run.
    erewrite bind_ok; [reflexivity | apply IH].
  - cbn [str_add]. run.
    erewrite bind_ok; [reflexivity | apply IH].
Qed.

(** The dialog over stored Options: one row per Option, in order, and the
    row at [cur_index] focused. *)
Lemma dialog_init_stored (cur_index : Z) (self : Selector) (o : list Option_) :
  _options self = map stored o ->
  PopUpSelectDialog_init cur_index self
  = match seq_getitem (rows_from cur_index 0 o) cur_index with
    | Ok f => (Ok {| group := rows_from cur_index 0 o; focus := f |}, self)
    | Raise e => (Raise e, self)
    end.
Proof.
  intros Hopts. unfold PopUpSelectDialog_init. run.
  rewrite Hopts. unfold enumerate.
  erewrite bind_ok; [| apply dialog_rows]. run.
  now destruct (seq_getitem (rows_from cur_index 0 o) cur_index).
Qed.

Lemma rows_from_nth (cur_index start : Z) (o : list Option_) (i : nat)
  (oi : Option_) :
  nth_error o i = Some oi ->
  nth_error (rows_from cur_index start o) i
  = Some (row_of cur_index (start + Z.of_nat i) oi).
Proof.
  revert start i. induction o as [| x o IH]; intros start i Hnth.
  - now destruct i.
  - destruct i as [| i]; cbn [nth_error rows_from] in *.
    + injection Hnth as ->. now rewrite Z.add_0_r.
    + rewrite (IH (start + 1) i Hnth). do 2 f_equal. lia.
Qed.

Lemma str_eqb_refl (s : str) : str_eqb s s = true.
Proof. unfold str_eqb. now destruct (list_eq_dec N.eq_dec s s). Qed.

(** Opening the pop-up over stored Options: the dialog is built from the
    options and the current index and kept; nothing else changes. *)
Lemma open_pop_up_stored (self : Selector) (o : list Option_) :
  _options self = map stored o ->
  PopUpLauncher_open_pop_up self
  = match seq_getitem (rows_from (_index self) 0 o) (_index self) with
    | Ok f =>
        (Ok tt,
         with_pop_up
           (Some {| group := rows_from (_index self) 0 o; focus := f |})
           self)
    | Raise e => (Raise e, self)
    end.
Proof.
  intros Hopts.
  unfold PopUpLauncher_open_pop_up, Selector_create_pop_up, Selector_index.
  run. unfold bind. rewrite (@dialog_init_stored _ _ _ Hopts).
  now destruct (seq_getitem (rows_from (_index self) 0 o) (_index self)).
Qed.

(** C5. The escape key on the dialog closes the pop-up (the Selector no
    longer holds a dialog) and returns [None]; the Selector's index, button
    text, options and value stay as they were, and the history of actions
    is unchanged, so no ["select"] signal is emitted. *)
Theorem escape_closes_pop_up (Pile_keypress : val -> str -> M Selector val)
  (size : val) (self : Selector) :
  let outcome := PopUpSelectDialog_keypress Pile_keypress size (lit "esc") self in
  fst outcome = Ok VNone
  /\ _pop_up_widget (snd outcome) = None
  /\ _index (snd outcome) = _index self
  /\ _button (snd outcome) = _button self
  /\ _options (snd outcome) = _options self
  /\ history (snd outcome) = history self
  /\ fst (Selector_value (snd outcome)) = fst (Selector_value self).
Proof.
  intros outcome. subst outcome. unfold PopUpSelectDialog_keypress.
  rewrite str_eqb_refl. repeat split.
  unfold Selector_value, PopUpLauncher_close_pop_up, bind, gets, modify,
    ret, lift.
  cbn [fst snd with_pop_up _options _index].
  now destruct (seq_getitem (_options self) (_index self)).
Qed.

Lemma map_m_pure (S A B : Type) (f : A -> M S B) (l : list A) :
  (forall x s, snd (f x s) = s) -> forall s, snd (map_m f l s) = s.
Proof.
  intros Hpure. induction l as [| x l IH]; intros s; [reflexivity |].
  cbn [map_m]. unfold bind at 1.
  pose proof (Hpure x s) as Hx.
  destruct (f x s) as [[y | e] s1]; cbn [snd] in Hx; subst s1;
    [| reflexivity].
  unfold bind at 1. pose proof (IH s) as Hl.
  destruct (map_m f l s) as [[ys | e] s2]; cbn [snd] in Hl; now subst s2.
Qed.

(** Building the dialog reads the Selector and changes nothing. *)
Lemma dialog_init_pure (cur_index : Z) (self : Selector) :
  snd (PopUpSelectDialog_init cur_index self) = self.
Proof.
  unfold PopUpSelectDialog_init. run. unfold bind at 1.
  match goal with
  | |- context [map_m ?f ?l self] =>
      assert (Hrow : forall x s, snd (f x s) = s);
      [| pose proof (@map_m_pure Selector _ _ f l Hrow self) as Hrows;
         destruct (map_m f l self) as [[rows | e] s1] ]
  end.
  - intros [i option] s.
    unfold bind, lift, PopUpButton_init, bind, lift, ret.
    destruct (getitem option 1) as [sel |]; [| reflexivity].
    destruct (truthy sel); destruct (getitem option 0) as [lbl |];
      try reflexivity; now destruct (str_add _ lbl).
  - cbn [snd] in Hrows. subst s1. run.
    now destruct (seq_getitem rows cur_index).
  - exact Hrows.
Qed.

(** Opening the pop-up of a closed Selector and pressing escape leaves the
    Selector exactly as it was. *)
Lemma open_then_escape (Pile_keypress : val -> str -> M Selector val)
  (size : val) (self opened : Selector) :
  _pop_up_widget self = None ->
  PopUpLauncher_open_pop_up self = (Ok tt, opened) ->
  PopUpSelectDialog_keypress Pile_keypress size (lit "esc") opened
  = (Ok VNone, self).
Proof.
  intros Hclosed Hopen.
  unfold PopUpLauncher_open_pop_up, Selector_create_pop_up, Selector_index
    in Hopen.
  rewrite bind_bind, bind_gets in Hopen. unfold bind in Hopen.
  pose proof (dialog_init_pure (_index self) self) as Hpure.
  destruct (PopUpSelectDialog_init (_index self) self) as [[d | e] s1];
    [| discriminate].
  cbn [snd] in Hpure. subst s1. cbn [modify] in Hopen.
  injection Hopen as <-.
  unfold PopUpSelectDialog_keypress. rewrite str_eqb_refl.
  unfold PopUpLauncher_close_pop_up. run.
  unfold with_pop_up. cbn [_options _button _index history].
  rewrite <- Hclosed. now destruct self.
Qed.

(** C6. On a Selector whose options are stored triples, with its pop-up
    open, clicking a selectable row [i] succeeds and leaves exactly what
    assigning [index = i] leaves (same index, same button text, same
    history of actions and so the same ["select"] signal, same value),
    with the pop-up closed. *)
Theorem click_is_index_assignment (self opened : Selector)
  (o : list Option_) (i : nat) (oi : Option_) :
  _options self = map stored o ->
  PopUpLauncher_open_pop_up self = (Ok tt, opened) ->
  nth_error o i = Some oi ->
  truthy (selectable oi) = true ->
  exists assigned,
    Selector_index_setter (Z.of_nat i) self = (Ok tt, assigned)
    /\ click_row i opened = (Ok tt, with_pop_up None assigned)
    /\ _pop_up_widget (with_pop_up None assigned) = None
    /\ _index (with_pop_up None assigned) = Z.of_nat i
    /\ _button (with_pop_up None assigned) = _prefix ++ label oi
    /\ history (with_pop_up None assigned)
       = history self
         ++ [Emit (lit "select") [value oi];
             SetText (_prefix ++ label oi);
             StoreIndex (Z.of_nat i)]
    /\ Selector_value (with_pop_up None assigned)
       = (Ok (value oi), with_pop_up None assigned).
Proof.
  intros Hopts Hopen Hnth Hsel.
  assert (Hget : seq_getitem (_options self) (Z.of_nat i) = Ok (stored oi)).
  { rewrite Hopts. apply seq_getitem_of_nat. now apply map_nth_error. }
  rewrite (@open_pop_up_stored _ _ Hopts) in Hopen.
  destruct (seq_getitem (rows_from (_index self) 0 o) (_index self))
    as [f | e]; [| discriminate].
  injection Hopen as <-.
  eexists. split; [apply index_setter_on_stored; exact Hget |].
  split.
  - unfold click_row. run. cbn [_pop_up_widget with_pop_up group].
    rewrite (@rows_from_nth _ _ _ _ _ Hnth). unfold row_of. rewrite Hsel.
    cbn [emit_click]. rewrite Z.add_0_l.
    unfold PopUpSelectDialog_click.
    erewrite bind_ok; [| apply index_setter_on_stored; exact Hget].
    reflexivity.
  - repeat split.
    + cbn [history record with_index with_button with_pop_up].
      now rewrite <- !app_assoc.
    + unfold Selector_value. run.
      cbn [_options _index record with_index with_button with_pop_up].
      rewrite Hget. run. now rewrite getitem_stored_2.
Qed.

Lemma click_is_index_assignment_witness :
  exists assigned,
    Selector_index_setter 2 grouped_selector = (Ok tt, assigned)
    /\ click_row 2 (snd (PopUpLauncher_open_pop_up grouped_selector))
       = (Ok tt, with_pop_up None assigned)
    /\ _pop_up_widget (with_pop_up None assigned) = None
    /\ _index (with_pop_up None assigned) = 2
    /\ _button (with_pop_up None assigned) = lit "(+) B"
    /\ history (with_pop_up None assigned)
       = history grouped_selector
         ++ [Emit (lit "select") [VStr (lit "B")];
             SetText (lit "(+) B");
             StoreIndex 2]
    /\ Selector_value (with_pop_up None assigned)
       = (Ok (VStr (lit "B")), with_pop_up None assigned).
Proof.
  apply (@click_is_index_assignment grouped_selector
           (snd (PopUpLauncher_open_pop_up grouped_selector))
           grouped_options 2
           {| label := lit "B"; selectable := VBool true;
              value := VStr (lit "B") |});
    reflexivity.
Defined.

(** ** The key filters of the editors *)

Lemma is_None_if (A : Type) (b : bool) (x : A) :
  Re.is_None (if b then Some x else None) = negb b.
Proof. now destruct b. Qed.

Lemma compile_realname :
  Re.compile (lit "[a-zA-Z0-9_\- ]")
  = Some [Re.Range (ord "a") (ord "z"); Re.Range (ord "A") (ord "Z");
          Re.Range (ord "0") (ord "9"); Re.Single (ord "_");
          Re.Single (ord "-"); Re.Single (ord " ")].
Proof. reflexivity. Qed.

Lemma compile_email :
  Re.compile (lit "[-a-zA-Z0-9_.@+=]")
  = Some [Re.Single (ord "-"); Re.Range (ord "a") (ord "z");
          Re.Range (ord "A") (ord "Z"); Re.Range (ord "0") (ord "9");
          Re.Single (ord "_"); Re.Single (ord "."); Re.Single (ord "@");
          Re.Single (ord "+"); Re.Single (ord "=")].
Proof. reflexivity. Qed.

Lemma compile_username_first :
  Re.compile (lit "[a-z_]")
  = Some [Re.Range (ord "a") (ord "z"); Re.Single (ord "_")].
Proof. reflexivity. Qed.

Lemma compile_username :
  Re.compile (lit "[a-z0-9_-]")
  = Some [Re.Range (ord "a") (ord "z"); Re.Range (ord "0") (ord "9");
          Re.Single (ord "_"); Re.Single (ord "-")].
Proof. reflexivity. Qed.

(** Each pattern of the module rejects a key exactly when the key is empty
    or its first character is outside the set the specification names. *)
Lemma match_realname (key : str) :
  Re.is_None (Re.match_ (lit "[a-zA-Z0-9_\- ]") key)
  = negb (first_char_in realname_char key).
Proof.
  unfold Re.match_. rewrite compile_realname.
  destruct key as [| c rest]; [reflexivity |].
  rewrite is_None_if. f_equal.
  unfold first_char_in, realname_char, lower, upper, digit.
  cbn [Re.in_set existsb Re.item_matches]. btauto.
Qed.

Lemma match_email (key : str) :
  Re.is_None (Re.match_ (lit "[-a-zA-Z0-9_.@+=]") key)
  = negb (first_char_in email_char key).
Proof.
  unfold Re.match_. rewrite compile_email.
  destruct key as [| c rest]; [reflexivity |].
  rewrite is_None_if. f_equal.
  unfold first_char_in, email_char, lower, upper, digit.
  cbn [Re.in_set existsb Re.item_matches]. btauto.
Qed.

Lemma match_username_first (key : str) :
  Re.is_None (Re.match_ (lit "[a-z_]") key)
  = negb (first_char_in username_first_char key).
Proof.
  unfold Re.match_. rewrite compile_username_first.
  destruct key as [| c rest]; [reflexivity |].
  rewrite is_None_if. f_equal.
  unfold first_char_in, username_first_char, lower.
  cbn [Re.in_set existsb Re.item_matches]. btauto.
Qed.

Lemma match_username (key : str) :
  Re.is_None (Re.match_ (lit "[a-z0-9_-]") key)
  = negb (first_char_in username_char key).
Proof.
  unfold Re.match_. rewrite compile_username.
  destruct key as [| c rest]; [reflexivity |].
  rewrite is_None_if. f_equal.
  unfold first_char_in, username_char, lower, digit.
  cbn [Re.in_set existsb Re.item_matches]. btauto.
Qed.

Section EditorFacts.

Context {E : Type} `{EditPrimitive E}.

(** [StringEditor.keypress] clears a displayed error first and always
    ends with the key given to the wrapped [Edit]. *)
Lemma StringEditor_keypress_calls (size : val) (key : str)
  (self : StringEditor E) :
  calls (snd (StringEditor_keypress size key self))
  = calls self
    ++ (if truthy (error self) then [CallSetEditText (lit "")] else [])
    ++ [CallKeypress size key].
Proof.
  unfold StringEditor_keypress, bind, gets, Edit_set_edit_text,
    set_error_attr, modify, Edit_keypress, ret.
  destruct (truthy (error self)); cbn [_edit error calls];
    destruct (edit_keypress size key _); cbn [snd calls];
    now rewrite <- ?app_assoc.
Qed.

Lemma StringEditor_forwards (size : val) (key : str) (self : StringEditor E) :
  forwards StringEditor_keypress size key self.
Proof.
  split; [reflexivity |].
  eexists. apply StringEditor_keypress_calls.
Qed.

(** Forwarding and swallowing exclude each other. *)
Lemma forwards_not_swallows (keypress : val -> str -> M (StringEditor E) val)
  (size : val) (key : str) (self : StringEditor E) :
  forwards keypress size key self -> ~ swallows keypress size key self.
Proof.
  intros [_ [before Hcalls]] Hswallow. unfold swallows in Hswallow.
  rewrite Hswallow in Hcalls. cbn [snd] in Hcalls.
  apply (f_equal (@List.length _)) in Hcalls.
  rewrite !length_app in Hcalls. cbn [List.length] in Hcalls. lia.
Qed.

Lemma RealnameEditor_verdict (size : val) (key : str) (self : StringEditor E) :
  if first_char_in realname_char key
  then forwards RealnameEditor_keypress size key self
  else swallows RealnameEditor_keypress size key self.
Proof.
  unfold forwards, swallows, RealnameEditor_keypress.
  rewrite match_realname.
  destruct (first_char_in realname_char key); cbn [negb].
  - apply StringEditor_forwards.
  - reflexivity.
Qed.

Lemma EmailEditor_verdict (size : val) (key : str) (self : StringEditor E) :
  if first_char_in email_char key
  then forwards EmailEditor_keypress size key self
  else swallows EmailEditor_keypress size key self.
Proof.
  unfold forwards, swallows, EmailEditor_keypress.
  rewrite match_email.
  destruct (first_char_in email_char key); cbn [negb].
  - apply StringEditor_forwards.
  - reflexivity.
Qed.

Lemma UsernameEditor_verdict_empty (size : val) (key : str)
  (self : StringEditor E) :
  get_edit_text (_edit self) = [] ->
  if first_char_in username_first_char key
  then forwards UsernameEditor_keypress size key self
  else swallows UsernameEditor_keypress size key self.
Proof.
  intros Hempty.
  unfold forwards, swallows, UsernameEditor_keypress, StringEditor_value.
  rewrite bind_gets, Hempty. cbn [List.length Z.of_nat Z.eqb].
  rewrite match_username_first.
  destruct (first_char_in username_first_char key); cbn [negb].
  - apply StringEditor_forwards.
  - reflexivity.
Qed.

Lemma UsernameEditor_verdict_nonempty (size : val) (key : str)
  (self : StringEditor E) :
  get_edit_text (_edit self) <> [] ->
  if first_char_in username_char key
  then forwards UsernameEditor_keypress size key self
  else swallows UsernameEditor_keypress size key self.
Proof.
  intros Hnonempty.
  unfold forwards, swallows, UsernameEditor_keypress, StringEditor_value.
  rewrite bind_gets.
  destruct (get_edit_text (_edit self)) as [| c text]; [congruence |].
  replace (Z.of_nat (List.length (c :: text)) =? 0) with false
    by (symmetry; apply Z.eqb_neq; cbn [List.length]; lia).
  rewrite match_username.
  destruct (first_char_in username_char key); cbn [negb].
  - apply StringEditor_forwards.
  - reflexivity.
Qed.

End EditorFacts.

Section EditorClaims.

Context {E : Type} `{EditPrimitive E}.

(** C7. [RealnameEditor.keypress] forwards a key to the underlying editor
    when the key matches the set [[a-zA-Z0-9_\- ]] (its first character is
    a letter, a digit, an underscore, a hyphen or a space) and otherwise
    returns [False] without forwarding; this holds for every key, whatever
    its length.  So ["a"], ["_"] and [" "] are accepted and ["$"] is
    rejected. *)
Theorem RealnameEditor_filter (size : val) (key : str) (self : StringEditor E) :
  (first_char_in realname_char key = true ->
   forwards RealnameEditor_keypress size key self)
  /\ (first_char_in realname_char key = false ->
      swallows RealnameEditor_keypress size key self)
  /\ forwards RealnameEditor_keypress size (lit "a") self
  /\ forwards RealnameEditor_keypress size (lit "_") self
  /\ forwards RealnameEditor_keypress size (lit " ") self
  /\ swallows RealnameEditor_keypress size (lit "$") self.
Proof.
  pose proof (fun k => RealnameEditor_verdict size k self) as Hv.
  split; [| split; [| split; [| split; [| split]]]].
  - intros Hin. specialize (Hv key). now rewrite Hin in Hv.
  - intros Hout. specialize (Hv key). now rewrite Hout in Hv.
  - apply (Hv (lit "a")).
  - apply (Hv (lit "_")).
  - apply (Hv (lit " ")).
  - apply (Hv (lit "$")).
Qed.

(** C8. [UsernameEditor.keypress] filters by the current contents of the
    field.  On an empty value it forwards exactly the keys that match
    [[a-z_]]: ["a"] and ["_"] are accepted, ["1"] and ["-"] rejected.  On a
    non-empty value it forwards exactly the keys that match [[a-z0-9_-]]:
    ["1"] and ["-"] are then accepted. *)
Theorem UsernameEditor_filter (size : val) (key : str) (self : StringEditor E) :
  (get_edit_text (_edit self) = [] ->
   (first_char_in username_first_char key = true ->
    forwards UsernameEditor_keypress size key self)
   /\ (first_char_in username_first_char key = false ->
       swallows UsernameEditor_keypress size key self)
   /\ forwards UsernameEditor_keypress size (lit "a") self
   /\ forwards UsernameEditor_keypress size (lit "_") self
   /\ swallows UsernameEditor_keypress size (lit "1") self
   /\ swallows UsernameEditor_keypress size (lit "-") self)
  /\ (get_edit_text (_edit self) <> [] ->
      (first_char_in username_char key = true ->
       forwards UsernameEditor_keypress size key self)
      /\ (first_char_in username_char key = false ->
          swallows UsernameEditor_keypress size key self)
      /\ forwards UsernameEditor_keypress size (lit "1") self
      /\ forwards UsernameEditor_keypress size (lit "-") self).
Proof.
  split.
  - intros Hempty.
    pose proof (fun k => @UsernameEditor_verdict_empty _ _ size k self Hempty)
      as Hv.
    split; [| split; [| split; [| split; [| split]]]].
    + intros Hin. specialize (Hv key). now rewrite Hin in Hv.
    + intros Hout. specialize (Hv key). now rewrite Hout in Hv.
    + apply (Hv (lit "a")).
    + apply (Hv (lit "_")).
    + apply (Hv (lit "1")).
    + apply (Hv (lit "-")).
  - intros Hnonempty.
    pose proof (fun k =>
                  @UsernameEditor_verdict_nonempty _ _ size k self Hnonempty)
      as Hv.
    split; [| split; [| split]].
    + intros Hin. specialize (Hv key). now rewrite Hin in Hv.
    + intros Hout. specialize (Hv key). now rewrite Hout in Hv.
    + apply (Hv (lit "1")).
    + apply (Hv (lit "-")).
Qed.

(** C9. The filters look at the first character of the key only: for a
    key [c :: rest], whatever [rest] is, each editor forwards the key when
    [c] is in its set and swallows it otherwise.  The set is
    [[a-zA-Z0-9_\- ]] for [RealnameEditor], [[-a-zA-Z0-9_.@+=]] for
    [EmailEditor], and for [UsernameEditor] [[a-z_]] on an empty field and
    [[a-z0-9_-]] on a non-empty one.  So [RealnameEditor] and
    [EmailEditor] forward ["backspace"], ["enter"] and ["up"], and so does
    [UsernameEditor], whose empty field swallows every key whose first
    character is outside [[a-z_]]. *)
Theorem filters_test_first_character (size : val) (c : char) (rest : str)
  (self : StringEditor E) :
  (realname_char c = true ->
   forwards RealnameEditor_keypress size (c :: rest) self)
  /\ (realname_char c = false ->
      swallows RealnameEditor_keypress size (c :: rest) self)
  /\ (email_char c = true ->
      forwards EmailEditor_keypress size (c :: rest) self)
  /\ (email_char c = false ->
      swallows EmailEditor_keypress size (c :: rest) self)
  /\ (get_edit_text (_edit self) = [] ->
      (username_first_char c = true ->
       forwards UsernameEditor_keypress size (c :: rest) self)
      /\ (username_first_char c = false ->
          swallows UsernameEditor_keypress size (c :: rest) self))
  /\ (get_edit_text (_edit self) <> [] ->
      (username_char c = true ->
       forwards UsernameEditor_keypress size (c :: rest) self)
      /\ (username_char c = false ->
          swallows UsernameEditor_keypress size (c :: rest) self))
  /\ forwards RealnameEditor_keypress size (lit "backspace") self
  /\ forwards RealnameEditor_keypress size (lit "enter") self
  /\ forwards RealnameEditor_keypress size (lit "up") self
  /\ forwards EmailEditor_keypress size (lit "backspace") self
  /\ forwards EmailEditor_keypress size (lit "enter") self
  /\ forwards EmailEditor_keypress size (lit "up") self
  /\ forwards UsernameEditor_keypress size (lit "backspace") self
  /\ forwards UsernameEditor_keypress size (lit "enter") self
  /\ forwards UsernameEditor_keypress size (lit "up") self.
Proof.
  pose proof (fun k => RealnameEditor_verdict size k self) as Hreal.
  pose proof (fun k => EmailEditor_verdict size k self) as Hemail.
  assert (Huser : forall k,
             first_char_in username_first_char k = true ->
             first_char_in username_char k = true ->
             forwards UsernameEditor_keypress size k self).
  { intros k Hfirst Hany.
    destruct (get_edit_text (_edit self)) as [| x text] eqn:Htext.
    - pose proof (@UsernameEditor_verdict_empty _ _ size k self Htext) as Hv.
      now rewrite Hfirst in Hv.
    - assert (Hne : get_edit_text (_edit self) <> []) by now rewrite Htext.
      pose proof (@UsernameEditor_verdict_nonempty _ _ size k self Hne) as Hv.
      now rewrite Hany in Hv. }
  split; [| split; [| split; [| split; [| split; [| split]]]]].
  - intros Hin. specialize (Hreal (c :: rest)). cbn [first_char_in] in Hreal.
    now rewrite Hin in Hreal.
  - intros Hout. specialize (Hreal (c :: rest)). cbn [first_char_in] in Hreal.
    now rewrite Hout in Hreal.
  - intros Hin. specialize (Hemail (c :: rest)). cbn [first_char_in] in Hemail.
    now rewrite Hin in Hemail.
  - intros Hout. specialize (Hemail (c :: rest)). cbn [first_char_in] in Hemail.
    now rewrite Hout in Hemail.
  - intros Hempty.
    pose proof (@UsernameEditor_verdict_empty _ _ size (c :: rest) self Hempty)
      as Hv.
    cbn [first_char_in] in Hv.
    split; intros Hc; now rewrite Hc in Hv.
  - intros Hnonempty.
    pose proof (@UsernameEditor_verdict_nonempty _ _ size (c :: rest) self
                  Hnonempty) as Hv.
    cbn [first_char_in] in Hv.
    split; intros Hc; now rewrite Hc in Hv.
  - split; [| split; [| split; [| split; [| split; [| split;
      [| split; [| split]]]]]]].
    + apply (Hreal (lit "backspace")).
    + apply (Hreal (lit "enter")).
    + apply (Hreal (lit "up")).
    + apply (Hemail (lit "backspace")).
    + apply (Hemail (lit "enter")).
    + apply (Hemail (lit "up")).
    + apply (Huser (lit "backspace")); reflexivity.
    + apply (Huser (lit "enter")); reflexivity.
    + apply (Huser (lit "up")); reflexivity.
Qed.

End EditorClaims.

Lemma RealnameEditor_filter_witness :
  forwards RealnameEditor_keypress VNone (lit "home")
    (StringEditor_init (lit "Ada"))
  /\ swallows RealnameEditor_keypress VNone (lit "$")
       (StringEditor_init (lit "Ada")).
Proof.
  split.
  - apply (proj1 (@RealnameEditor_filter str LineEdit VNone (lit "home")
                    (StringEditor_init (lit "Ada")))).
    reflexivity.
  - apply (proj1 (proj2 (@RealnameEditor_filter str LineEdit VNone (lit "$")
                           (StringEditor_init (lit "Ada"))))).
    reflexivity.
Defined.

Lemma UsernameEditor_filter_witness :
  swallows UsernameEditor_keypress VNone (lit "1")
    (StringEditor_init (lit ""))
  /\ forwards UsernameEditor_keypress VNone (lit "1")
       (StringEditor_init (lit "a")).
Proof.
  split.
  - destruct (@UsernameEditor_filter str LineEdit VNone (lit "1")
                (StringEditor_init (lit ""))) as [Hempty _].
    destruct (Hempty ltac:(reflexivity)) as [_ [Hswallow _]].
    apply Hswallow. reflexivity.
  - destruct (@UsernameEditor_filter str LineEdit VNone (lit "1")
                (StringEditor_init (lit "a"))) as [_ Hnonempty].
    destruct (Hnonempty ltac:(discriminate)) as [Hforward _].
    apply Hforward. reflexivity.
Defined.

Lemma filters_test_first_character_witness :
  forwards RealnameEditor_keypress VNone (lit "backspace")
    (StringEditor_init (lit "Ada"))
  /\ swallows EmailEditor_keypress VNone (lit " up")
       (StringEditor_init (lit "Ada"))
  /\ forwards UsernameEditor_keypress VNone (lit "up")
       (StringEditor_init (lit ""))
  /\ swallows UsernameEditor_keypress VNone (lit "1up")
       (StringEditor_init (lit ""))
  /\ forwards UsernameEditor_keypress VNone (lit "1up")
       (StringEditor_init (lit "ada"))
  /\ swallows UsernameEditor_keypress VNone (lit "Up")
       (StringEditor_init (lit "ada")).
Proof.
  split; [| split; [| split; [| split; [| split]]]].
  - apply (proj1 (@filters_test_first_character str LineEdit VNone (ord "b")
                    (lit "ackspace") (StringEditor_init (lit "Ada")))).
    reflexivity.
  - destruct (@filters_test_first_character str LineEdit VNone (ord " ")
                (lit "up") (StringEditor_init (lit "Ada")))
      as [_ [_ [_ [Hswallow _]]]].
    apply Hswallow. reflexivity.
  - destruct (@filters_test_first_character str LineEdit VNone (ord "u")
                (lit "p") (StringEditor_init (lit "")))
      as [_ [_ [_ [_ [Hempty _]]]]].
    destruct (Hempty ltac:(reflexivity)) as [Hforward _].
    apply Hforward. reflexivity.
  - destruct (@filters_test_first_character str LineEdit VNone (ord "1")
                (lit "up") (StringEditor_init (lit "")))
      as [_ [_ [_ [_ [Hempty _]]]]].
    destruct (Hempty ltac:(reflexivity)) as [_ Hswallow].
    apply Hswallow. reflexivity.
  - destruct (@filters_test_first_character str LineEdit VNone (ord "1")
                (lit "up") (StringEditor_init (lit "ada")))
      as [_ [_ [_ [_ [_ [Hnonempty _]]]]]].
    destruct (Hnonempty ltac:(discriminate)) as [Hforward _].
    apply Hforward. reflexivity.
  - destruct (@filters_test_first_character str LineEdit VNone (ord "U")
                (lit "p") (StringEditor_init (lit "ada")))
      as [_ [_ [_ [_ [_ [Hnonempty _]]]]]].
    destruct (Hnonempty ltac:(discriminate)) as [_ Hswallow].
    apply Hswallow. reflexivity.
Defined.

(** ** Further properties: the index setter *)

Lemma seq_getitem_negative (A : Type) (l : list A) (i : Z) (x : A) :
  - Z.of_nat (List.length l) <= i < 0 ->
  nth_error l (Z.to_nat (i + Z.of_nat (List.length l))) = Some x ->
  seq_getitem l i = Ok x.
Proof.
  intros Hi Hnth. unfold seq_getitem.
  destruct (Z.ltb_spec i 0) as [_ | Hge]; [| lia].
  destruct (Z.ltb_spec (i + Z.of_nat (List.length l)) 0) as [Hlt | _];
    [lia |].
  destruct (Z.leb_spec (Z.of_nat (List.length l))
              (i + Z.of_nat (List.length l))) as [Hle | _]; [lia |].
  cbn [orb]. now rewrite Hnth.
Qed.

(** X1. Assigning an index below [-n] or from [n] on, [n] the number of
    options, raises [IndexError] before anything is emitted: the Selector
    is exactly as it was. *)
Theorem index_setter_out_of_range (self : Selector) (i : Z) :
  i < - Z.of_nat (List.length (_options self))
  \/ Z.of_nat (List.length (_options self)) <= i ->
  Selector_index_setter i self = (Raise IndexError, self).
Proof.
  intros Hout. unfold Selector_index_setter. run.
  now rewrite seq_getitem_out_of_range.
Qed.

Lemma index_setter_out_of_range_witness :
  Selector_index_setter 2 (snd YesNo_new) = (Raise IndexError, snd YesNo_new)
  /\ Selector_index_setter (-3) (snd YesNo_new)
     = (Raise IndexError, snd YesNo_new).
Proof.
  split.
  - apply (@index_setter_out_of_range (snd YesNo_new) 2).
    right. cbn. lia.
  - apply (@index_setter_out_of_range (snd YesNo_new) (-3)).
    left. cbn. lia.
Defined.

(** X2. Assigning the index of an option whose label is not text emits the
    ["select"] signal with that option's value and then raises
    [TypeError]: the signal has gone out, but the button text and the
    stored index are still the old ones. *)
Theorem index_setter_label_not_text (self : Selector) (i : Z)
  (o0 o1 o2 : val) :
  seq_getitem (_options self) i = Ok (VTuple [o0; o1; o2]) ->
  isinstance_str o0 = false ->
  Selector_index_setter i self
  = (Raise TypeError, record (Emit (lit "select") [o2]) self).
Proof.
  intros Hopt Hlabel.
  unfold Selector_index_setter, Selector__emit, bind, gets, lift, modify.
  rewrite Hopt, getitem_triple_2.
  erewrite set_index_on_triple by exact Hopt.
  now destruct o0.
Qed.

Lemma index_setter_label_not_text_witness :
  Selector_index_setter 1
    (snd (Selector_new [VStr (lit "Yes"); VTuple [VInt 7; VBool true; VInt 8]] 0))
  = (Raise TypeError,
     record (Emit (lit "select") [VInt 8])
       (snd (Selector_new
               [VStr (lit "Yes"); VTuple [VInt 7; VBool true; VInt 8]] 0))).
Proof.
  apply (@index_setter_label_not_text
           (snd (Selector_new
                   [VStr (lit "Yes"); VTuple [VInt 7; VBool true; VInt 8]] 0))
           1 (VInt 7) (VBool true) (VInt 8));
    reflexivity.
Defined.

(** X3. A negative index from [-n] to [-1] is accepted by the setter: it
    emits the value and shows the label of the option counted from the
    end, and stores the negative number itself, which [index] then
    returns; [value] returns the value of that option. *)
Theorem index_setter_negative (self : Selector) (i : Z) (oi : Option_) :
  - Z.of_nat (List.length (_options self)) <= i < 0 ->
  nth_error (_options self)
    (Z.to_nat (i + Z.of_nat (List.length (_options self))))
  = Some (stored oi) ->
  exists after,
    Selector_index_setter i self = (Ok tt, after)
    /\ history after
       = history self
         ++ [Emit (lit "select") [value oi];
             SetText (_prefix ++ label oi);
             StoreIndex i]
    /\ Selector_index after = (Ok i, after)
    /\ Selector_value after = (Ok (value oi), after)
    /\ _button after = _prefix ++ label oi.
Proof.
  intros Hi Hnth.
  pose proof (@seq_getitem_negative _ _ _ _ Hi Hnth) as Hget.
  eexists. split; [apply index_setter_on_stored; exact Hget |].
  repeat split.
  - cbn [history record with_index with_button].
    now rewrite <- !app_assoc.
  - unfold Selector_value, bind, gets, lift.
    cbn [_options _index record with_index with_button].
    rewrite Hget. reflexivity.
Qed.

Lemma index_setter_negative_witness :
  exists after,
    Selector_index_setter (-1) (snd YesNo_new) = (Ok tt, after)
    /\ history after
       = history (snd YesNo_new)
         ++ [Emit (lit "select") [VStr (lit "No")];
             SetText (lit "(+) No");
             StoreIndex (-1)]
    /\ Selector_index after = (Ok (-1), after)
    /\ Selector_value after = (Ok (VStr (lit "No")), after)
    /\ _button after = lit "(+) No".
Proof.
  apply (@index_setter_negative (snd YesNo_new) (-1)
           {| label := lit "No"; selectable := VBool true;
              value := VStr (lit "No") |});
    [cbn; lia | reflexivity].
Defined.

(** X4. Two assignments in a row: both emit, in order, and the Selector
    ends as the second assignment alone would leave it (index, button
    text, value); the setter does not look at the index it replaces, so
    assigning the current index again emits again. *)
Theorem index_setter_twice (self : Selector) (i j : Z) (oi oj : Option_) :
  0 <= i ->
  nth_error (_options self) (Z.to_nat i) = Some (stored oi) ->
  0 <= j ->
  nth_error (_options self) (Z.to_nat j) = Some (stored oj) ->
  exists after,
    (Selector_index_setter i ;; Selector_index_setter j) self = (Ok tt, after)
    /\ history after
       = history self
         ++ [Emit (lit "select") [value oi];
             SetText (_prefix ++ label oi);
             StoreIndex i;
             Emit (lit "select") [value oj];
             SetText (_prefix ++ label oj);
             StoreIndex j]
    /\ _index after = j
    /\ _button after = _prefix ++ label oj
    /\ Selector_value after = (Ok (value oj), after)
    /\ _options after = _options self.
Proof.
  intros Hi Hnthi Hj Hnthj.
  pose proof (@seq_getitem_nonneg _ _ _ _ Hi Hnthi) as Hgeti.
  pose proof (@seq_getitem_nonneg _ _ _ _ Hj Hnthj) as Hgetj.
  eexists. split.
  - erewrite bind_ok; [| apply index_setter_on_stored; exact Hgeti].
    apply index_setter_on_stored. exact Hgetj.
  - repeat split.
    + cbn [history record with_index with_button].
      now rewrite <- !app_assoc.
    + unfold Selector_value, bind, gets, lift.
      cbn [_options _index record with_index with_button].
      rewrite Hgetj. reflexivity.
Qed.

Lemma index_setter_twice_witness :
  exists after,
    (Selector_index_setter 1 ;; Selector_index_setter 1) (snd YesNo_new)
    = (Ok tt, after)
    /\ history after
       = history (snd YesNo_new)
         ++ [Emit (lit "select") [VStr (lit "No")];
             SetText (lit "(+) No");
             StoreIndex 1;
             Emit (lit "select") [VStr (lit "No")];
             SetText (lit "(+) No");
             StoreIndex 1]
    /\ _index after = 1
    /\ _button after = lit "(+) No"
    /\ Selector_value after = (Ok (VStr (lit "No")), after)
    /\ _options after = _options (snd YesNo_new).
Proof.
  apply (@index_setter_twice (snd YesNo_new) 1 1
           {| label := lit "No"; selectable := VBool true;
              value := VStr (lit "No") |}
           {| label := lit "No"; selectable := VBool true;
              value := VStr (lit "No") |});
    first [lia | reflexivity].
Defined.

(** ** Further properties: construction *)

Lemma forallb_false_split (A : Type) (f : A -> bool) (l : list A) :
  forallb f l = false ->
  exists before bad after,
    l = before ++ bad :: after
    /\ forallb f before = true
    /\ f bad = false.
Proof.
  induction l as [| x l IH]; [discriminate |].
  cbn [forallb]. destruct (f x) eqn:Hx; cbn [andb].
  - intros Hl. destruct (IH Hl) as [before [bad [after [-> [Hb Hbad]]]]].
    exists (x :: before), bad, after. cbn [forallb app].
    rewrite Hx, Hb. now repeat split.
  - intros _. now exists [], x, l.
Qed.

(** Construction can only succeed on options that are all valid. *)
Lemma construction_ok_valid (opts : list val) (index : Z) :
  fst (Selector_new opts index) = Ok tt ->
  forallb valid_shape opts = true.
Proof.
  intros Hok. destruct (forallb valid_shape opts) eqn:Hvalid;
    [reflexivity |].
  destruct (forallb_false_split _ _ Hvalid)
    as [before [bad [after [-> [Hbefore Hbad]]]]].
  rewrite Selector_new_invalid in Hok; [discriminate | assumption |].
  rewrite invalid_shape_spec. now rewrite Hbad.
Qed.

(** With valid options, the option that the initial index selects, if
    there is one, is a triple. *)
Lemma initial_option_triple (opts : list val) (index : Z) (opt : val) :
  forallb valid_shape opts = true ->
  seq_getitem (map documented_triple opts) index = Ok opt ->
  exists o0 o1 o2, opt = VTuple [o0; o1; o2].
Proof.
  intros Hvalid Hget.
  assert (Hin : In opt (map documented_triple opts)).
  { unfold seq_getitem in Hget.
    destruct ((_ <? 0) || _); [discriminate |].
    destruct (nth_error _ _) as [x |] eqn:Hnth; [| discriminate].
    injection Hget as <-. eapply nth_error_In; eassumption. }
  apply in_map_iff in Hin as [raw [<- Hraw]].
  apply documented_triple_shape.
  rewrite forallb_forall in Hvalid. now apply Hvalid.
Qed.

(** A successful construction had valid options and an initial index that
    selects a triple with a text label. *)
Lemma construction_ok_inv (opts : list val) (index : Z) :
  fst (Selector_new opts index) = Ok tt ->
  forallb valid_shape opts = true
  /\ exists label o1 o2,
       seq_getitem (map documented_triple opts) index
       = Ok (VTuple [VStr label; o1; o2]).
Proof.
  intros Hok. pose proof (construction_ok_valid _ _ Hok) as Hvalid.
  split; [assumption |].
  rewrite Selector_new_valid in Hok by assumption.
  set (self := with_button _prefix
                 (with_options (map documented_triple opts) blank)) in *.
  destruct (seq_getitem (map documented_triple opts) index)
    as [opt | e] eqn:Hget.
  - destruct (initial_option_triple _ _ Hvalid Hget)
      as [o0 [o1 [o2 ->]]].
    rewrite (@set_index_on_triple index self o0 o1 o2 Hget) in Hok.
    destruct o0; try discriminate. now eexists _, _, _.
  - unfold Selector__set_index in Hok.
    rewrite bind_gets, bind_lift in Hok.
    change (_options self) with (map documented_triple opts) in Hok.
    rewrite Hget in Hok. discriminate.
Qed.

(** The state that a successful construction leaves. *)
Lemma construction_ok_state (opts : list val) (index : Z) (self : Selector) :
  Selector_new opts index = (Ok tt, self) ->
  exists label o1 o2,
    seq_getitem (map documented_triple opts) index
    = Ok (VTuple [VStr label; o1; o2])
    /\ self
       = with_pop_up None
           (record (StoreIndex index)
              (with_index index
                 (record (SetText (_prefix ++ label))
                    (with_button (_prefix ++ label)
                       (with_button _prefix
                          (with_options (map documented_triple opts)
                             blank)))))).
Proof.
  intros Hnew.
  assert (Hok : fst (Selector_new opts index) = Ok tt) by now rewrite Hnew.
  apply construction_ok_inv in Hok as [Hvalid [label [o1 [o2 Hget]]]].
  exists label, o1, o2. split; [exact Hget |].
  rewrite Selector_new_valid in Hnew by assumption.
  rewrite (@set_index_on_triple index
             (with_button _prefix
                (with_options (map documented_triple opts) blank))
             (VStr label) o1 o2 Hget) in Hnew.
  now injection Hnew as <-.
Qed.

Lemma construction_consistent (opts : list val) (index : Z) (self : Selector) :
  Selector_new opts index = (Ok tt, self) ->
  _options self = map documented_triple opts /\ consistent self.
Proof.
  intros Hnew.
  destruct (construction_ok_state _ _ Hnew) as [label [o1 [o2 [Hget ->]]]].
  split; [reflexivity |].
  exists (VTuple [VStr label; o1; o2]), label, o2.
  split; [exact Hget |]. now repeat split.
Qed.

(** X5. Construction succeeds exactly when every raw option has a valid
    shape and the initial index selects (counting from the end when
    negative) an option whose label is text. *)
Theorem construction_succeeds_iff (opts : list val) (index : Z) :
  fst (Selector_new opts index) = Ok tt
  <-> forallb valid_shape opts = true
      /\ exists label o1 o2,
           seq_getitem (map documented_triple opts) index
           = Ok (VTuple [VStr label; o1; o2]).
Proof.
  split; [apply construction_ok_inv |].
  intros [Hvalid [label [o1 [o2 Hget]]]].
  rewrite Selector_new_valid by assumption.
  now rewrite (@set_index_on_triple index
           (with_button _prefix
              (with_options (map documented_triple opts) blank))
           (VStr label) o1 o2 Hget).
Qed.

Lemma construction_succeeds_iff_witness :
  fst (Selector_new [VStr (lit "Yes"); VTuple [VStr (lit "No"); VBool false]] (-1))
  = Ok tt.
Proof.
  apply (proj2 (construction_succeeds_iff
                  [VStr (lit "Yes"); VTuple [VStr (lit "No"); VBool false]]
                  (-1))).
  split; [reflexivity |].
  now exists (lit "No"), (VBool false), (VStr (lit "No")).
Defined.

(** X6. What a successful construction leaves: the documented triples as
    options, the given index stored, the pop-up closed, the button showing
    the prefix and the label of the selected option, a history of one text
    update and one store (no signal), and a Selector that is consistent:
    its [value] is defined. *)
Theorem construction_result (opts : list val) (index : Z) (self : Selector) :
  Selector_new opts index = (Ok tt, self) ->
  _options self = map documented_triple opts
  /\ _index self = index
  /\ _pop_up_widget self = None
  /\ history self = [SetText (_button self); StoreIndex index]
  /\ consistent self
  /\ exists value, Selector_value self = (Ok value, self).
Proof.
  intros Hnew.
  destruct (construction_consistent _ _ Hnew) as [_ Hc].
  destruct (construction_ok_state _ _ Hnew) as [label [o1 [o2 [Hget Hself]]]].
  subst self.
  split; [reflexivity |]. split; [reflexivity |]. split; [reflexivity |].
  split; [reflexivity |]. split; [exact Hc |].
  exists o2. unfold Selector_value. run.
  cbn [_options _index record with_index with_button with_pop_up
       with_options blank].
  rewrite Hget. reflexivity.
Qed.

Lemma construction_result_witness :
  _options (snd YesNo_new)
  = map documented_triple [VStr (lit "Yes"); VStr (lit "No")]
  /\ _index (snd YesNo_new) = 0
  /\ _pop_up_widget (snd YesNo_new) = None
  /\ history (snd YesNo_new) = [SetText (_button (snd YesNo_new)); StoreIndex 0]
  /\ consistent (snd YesNo_new)
  /\ exists value, Selector_value (snd YesNo_new) = (Ok value, snd YesNo_new).
Proof.
  apply (@construction_result [VStr (lit "Yes"); VStr (lit "No")] 0
           (snd YesNo_new)).
  reflexivity.
Defined.

(** X7. Normalization does not look at the label: when the options are
    valid but the one that the initial index selects has a label that is
    not text, construction raises [TypeError], with nothing shown, stored
    or emitted. *)
Theorem construction_label_not_text (opts : list val) (index : Z)
  (o0 o1 o2 : val) :
  forallb valid_shape opts = true ->
  seq_getitem (map documented_triple opts) index = Ok (VTuple [o0; o1; o2]) ->
  isinstance_str o0 = false ->
  exists self,
    Selector_new opts index = (Raise TypeError, self)
    /\ history self = []
    /\ _button self = _prefix.
Proof.
  intros Hvalid Hget Hlabel.
  rewrite Selector_new_valid by assumption.
  rewrite (@set_index_on_triple index
           (with_button _prefix
              (with_options (map documented_triple opts) blank))
           o0 o1 o2 Hget).
  destruct o0; try discriminate Hlabel; now eexists.
Qed.

Lemma construction_label_not_text_witness :
  exists self,
    Selector_new [VTuple [VInt 7]; VStr (lit "No")] 0 = (Raise TypeError, self)
    /\ history self = []
    /\ _button self = _prefix.
Proof.
  apply (@construction_label_not_text [VTuple [VInt 7]; VStr (lit "No")] 0
           (VInt 7) (VBool true) (VInt 7));
    reflexivity.
Defined.

(** ** Further properties: what every operation keeps *)

Lemma consistent_agree (self self' : Selector) :
  _options self' = _options self ->
  _index self' = _index self ->
  _button self' = _button self ->
  consistent self -> consistent self'.
Proof.
  intros Hopts Hindex Hbutton [opt [label [value [Hget [Hl [Hv Hb]]]]]].
  exists opt, label, value. rewrite Hopts, Hindex, Hbutton.
  now repeat split.
Qed.

Lemma index_setter_keeps (val : Z) (self : Selector) :
  consistent self ->
  consistent (snd (Selector_index_setter val self))
  /\ _options (snd (Selector_index_setter val self)) = _options self.
Proof.
  intros Hc.
  unfold Selector_index_setter, Selector__emit, Selector__set_index,
    SelectableIcon_set_text, bind, gets, lift, modify.
  destruct (seq_getitem (_options self) val) as [opt | e] eqn:Hopt;
    [| now split].
  destruct (getitem opt 2) as [v | e] eqn:Hv; [| now split].
  cbn [_options record]. rewrite Hopt.
  destruct (getitem opt 0) as [lbl | e] eqn:Hl.
  - destruct lbl as [| b | z | t | items | items]; cbn [str_add snd];
      try (split; [now apply (@consistent_agree self) | reflexivity]).
    split; [| reflexivity].
    exists opt, t, v.
    cbn [_options _index _button record with_index with_button].
    now repeat split.
  - cbn [snd]. split; [now apply (@consistent_agree self) | reflexivity].
Qed.

Lemma open_pop_up_keeps (self : Selector) :
  snd (PopUpLauncher_open_pop_up self) = self
  \/ exists d, snd (PopUpLauncher_open_pop_up self) = with_pop_up (Some d) self.
Proof.
  unfold PopUpLauncher_open_pop_up, Selector_create_pop_up, Selector_index.
  rewrite bind_bind, bind_gets. unfold bind.
  pose proof (dialog_init_pure (_index self) self) as Hpure.
  destruct (PopUpSelectDialog_init (_index self) self) as [[d | e] s1];
    cbn [snd] in Hpure; subst s1.
  - right. now exists d.
  - now left.
Qed.

Lemma perform_keeps (op : operation) (self : Selector) :
  consistent self ->
  consistent (snd (perform op self))
  /\ _options (snd (perform op self)) = _options self.
Proof.
  intros Hc. destruct op as [val | | | | i]; cbn [perform].
  - now apply index_setter_keeps.
  - destruct (open_pop_up_keeps self) as [-> | [d ->]].
    + now split.
    + split; [now apply (@consistent_agree self) | reflexivity].
  - split; [now apply (@consistent_agree self) | reflexivity].
  - rewrite bind_gets.
    destruct (_pop_up_widget self); [| now split].
    unfold PopUpSelectDialog_keypress. rewrite str_eqb_refl.
    split; [now apply (@consistent_agree self) | reflexivity].
  - unfold click_row. rewrite bind_gets.
    destruct (_pop_up_widget self) as [d |]; [| now split].
    destruct (nth_error (group d) i) as [[text cursor j | text] |];
      [| now split | now split].
    cbn [emit_click]. unfold PopUpSelectDialog_click, bind.
    destruct (index_setter_keeps j Hc) as [Hc' Hopts].
    destruct (Selector_index_setter j self) as [[[] | e] s1];
      cbn [snd] in *.
    + split; [now apply (@consistent_agree s1) | exact Hopts].
    + now split.
Qed.

Lemma perform_all_keeps (ops : list operation) (self : Selector) :
  consistent self ->
  consistent (perform_all ops self)
  /\ _options (perform_all ops self) = _options self.
Proof.
  revert self. induction ops as [| op ops IH]; intros self Hc;
    cbn [perform_all]; [now split |].
  destruct (perform_keeps op Hc) as [Hc' Hopts].
  destruct (IH _ Hc') as [Hc'' Hopts'].
  split; [assumption | congruence].
Qed.

Lemma consistent_value (self : Selector) :
  consistent self -> exists value, Selector_value self = (Ok value, self).
Proof.
  intros [opt [label [value [Hget [_ [Hv _]]]]]].
  exists value. unfold Selector_value. run. rewrite Hget. run.
  now rewrite Hv.
Qed.

(** X8. A consistent Selector stays consistent under any sequence of index
    assignments, pop-up openings and closings, escapes and row clicks,
    whichever of them succeed or raise: the current index always selects
    an option with a text label that the button shows, the options are
    never changed, and [value] returns without an error. *)
Theorem operations_keep_consistent (ops : list operation) (self : Selector) :
  consistent self ->
  consistent (perform_all ops self)
  /\ _options (perform_all ops self) = _options self
  /\ exists value,
       Selector_value (perform_all ops self)
       = (Ok value, perform_all ops self).
Proof.
  intros Hc. destruct (perform_all_keeps ops Hc) as [Hc' Hopts].
  split; [assumption |]. split; [assumption |].
  now apply consistent_value.
Qed.

Lemma operations_keep_consistent_witness :
  consistent
    (perform_all [OpenPopUp; ClickRow 0; AssignIndex 5; ClickRow 2;
                  OpenPopUp; PressEscape; AssignIndex (-1)]
       grouped_selector)
  /\ _options
       (perform_all [OpenPopUp; ClickRow 0; AssignIndex 5; ClickRow 2;
                     OpenPopUp; PressEscape; AssignIndex (-1)]
          grouped_selector)
     = _options grouped_selector
  /\ exists value,
       Selector_value
         (perform_all [OpenPopUp; ClickRow 0; AssignIndex 5; ClickRow 2;
                       OpenPopUp; PressEscape; AssignIndex (-1)]
            grouped_selector)
       = (Ok value,
          perform_all [OpenPopUp; ClickRow 0; AssignIndex 5; ClickRow 2;
                       OpenPopUp; PressEscape; AssignIndex (-1)]
            grouped_selector).
Proof.
  apply (@operations_keep_consistent
           [OpenPopUp; ClickRow 0; AssignIndex 5; ClickRow 2;
            OpenPopUp; PressEscape; AssignIndex (-1)]
           grouped_selector).
  exists (VTuple [VStr (lit "A"); VBool true; VStr (lit "A")]),
    (lit "A"), (VStr (lit "A")).
  now repeat split.
Defined.

(** X9. After a successful construction and any sequence of operations,
    the button and [value] speak of the same option: the current index
    selects one of the documented triples, the button shows the prefix
    followed by its label, and [value] returns its value. *)
Theorem constructed_selector_in_step (opts : list val) (index : Z)
  (self : Selector) (ops : list operation) :
  Selector_new opts index = (Ok tt, self) ->
  exists label selectable value,
    seq_getitem (map documented_triple opts) (_index (perform_all ops self))
    = Ok (VTuple [VStr label; selectable; value])
    /\ _button (perform_all ops self) = _prefix ++ label
    /\ Selector_value (perform_all ops self)
       = (Ok value, perform_all ops self).
Proof.
  intros Hnew.
  destruct (construction_consistent _ _ Hnew) as [Hopts Hc].
  assert (Hvalid : forallb valid_shape opts = true).
  { apply (construction_ok_valid opts index). now rewrite Hnew. }
  destruct (perform_all_keeps ops Hc)
    as [[opt [label [value [Hget [Hl [Hv Hb]]]]]] Hsame].
  rewrite Hsame, Hopts in Hget.
  destruct (initial_option_triple _ _ Hvalid Hget) as [o0 [o1 [o2 ->]]].
  rewrite getitem_triple_0 in Hl. rewrite getitem_triple_2 in Hv.
  injection Hl as ->. injection Hv as ->.
  exists label, o1, value. split; [exact Hget |]. split; [exact Hb |].
  unfold Selector_value. run. rewrite Hsame, Hopts, Hget. reflexivity.
Qed.

Lemma constructed_selector_in_step_witness :
  exists label selectable value,
    seq_getitem
      (map documented_triple [VStr (lit "Yes"); VStr (lit "No")])
      (_index (perform_all [AssignIndex 1; AssignIndex 9] (snd YesNo_new)))
    = Ok (VTuple [VStr label; selectable; value])
    /\ _button (perform_all [AssignIndex 1; AssignIndex 9] (snd YesNo_new))
       = _prefix ++ label
    /\ Selector_value
         (perform_all [AssignIndex 1; AssignIndex 9] (snd YesNo_new))
       = (Ok value,
          perform_all [AssignIndex 1; AssignIndex 9] (snd YesNo_new)).
Proof.
  apply (@constructed_selector_in_step
           [VStr (lit "Yes"); VStr (lit "No")] 0 (snd YesNo_new)
           [AssignIndex 1; AssignIndex 9]).
  reflexivity.
Defined.

(** ** Further properties: the dialog and its geometry *)

(** X10. The accessors only read: [index], [value], [create_pop_up] and
    [get_pop_up_parameters] leave the Selector exactly as it was, whether
    they return or raise. *)
Theorem accessors_read_only (self : Selector) :
  snd (Selector_index self) = self
  /\ snd (Selector_value self) = self
  /\ snd (Selector_create_pop_up self) = self
  /\ snd (Selector_get_pop_up_parameters self) = self.
Proof.
  split; [reflexivity |]. split; [| split].
  - unfold Selector_value, bind, gets, lift.
    destruct (seq_getitem (_options self) (_index self)) as [opt |];
      [| reflexivity].
    now destruct (getitem opt 2).
  - unfold Selector_create_pop_up, Selector_index. rewrite bind_gets.
    apply dialog_init_pure.
  - unfold Selector_get_pop_up_parameters. rewrite bind_gets.
    unfold bind at 1.
    match goal with
    | |- context [map_m ?f ?l self] =>
        assert (Hlen : forall x s, snd (f x s) = s);
        [| pose proof (@map_m_pure Selector _ _ f l Hlen self) as Hlens;
           destruct (map_m f l self) as [[lens | e] s1] ]
    end.
    + intros opt s. unfold bind, lift.
      destruct (getitem opt 0) as [o0 |]; [| reflexivity].
      now destruct (len o0).
    + cbn [snd] in Hlens. subst s1. rewrite bind_lift.
      now destruct (Py.max lens).
    + exact Hlens.
Qed.

Lemma rows_from_length (cur_index start : Z) (o : list Option_) :
  List.length (rows_from cur_index start o) = List.length o.
Proof.
  revert start. induction o as [| x o IH]; intros start; [reflexivity |].
  cbn [rows_from List.length]. now rewrite IH.
Qed.

(** X11. The dialog of a Selector whose options are stored triples with
    text labels and whose index is in range has one row per option, in
    order: a selectable option gives a button that shows ["(+) "] before
    the label when it is the current one and ["( ) "] otherwise, with the
    cursor after that marker and its own position bound to the click; any
    other option gives a plain text row, the label after four spaces.  The
    row at the current index has the focus. *)
Theorem dialog_rows_shown (self : Selector) (o : list Option_) :
  _options self = map stored o ->
  - Z.of_nat (List.length o) <= _index self < Z.of_nat (List.length o) ->
  exists d,
    Selector_create_pop_up self = (Ok d, self)
    /\ List.length (group d) = List.length o
    /\ (forall i oi,
          nth_error o i = Some oi ->
          nth_error (group d) i
          = Some (if truthy (selectable oi) then
                    PopUpButton
                      ((if Z.of_nat i =? _index self
                        then lit "(+) " else lit "( ) ") ++ label oi)
                      4 (Z.of_nat i)
                  else TextRow (lit "    " ++ label oi)))
    /\ seq_getitem (group d) (_index self) = Ok (focus d).
Proof.
  intros Hopts Hrange.
  unfold Selector_create_pop_up, Selector_index. rewrite bind_gets.
  rewrite (@dialog_init_stored _ _ _ Hopts).
  destruct (@seq_getitem_in_range _ (rows_from (_index self) 0 o)
              (_index self)) as [f [Hfocus _]].
  { now rewrite rows_from_length. }
  rewrite Hfocus. eexists. split; [reflexivity |].
  cbn [group focus]. split; [apply rows_from_length |].
  split; [| exact Hfocus].
  intros i oi Hnth. rewrite (@rows_from_nth _ 0 _ _ _ Hnth).
  rewrite Z.add_0_l. unfold row_of, states.
  now destruct (truthy (selectable oi)), (Z.of_nat i =? _index self).
Qed.

Lemma dialog_rows_shown_witness :
  exists d,
    Selector_create_pop_up grouped_selector = (Ok d, grouped_selector)
    /\ List.length (group d) = List.length grouped_options
    /\ (forall i oi,
          nth_error grouped_options i = Some oi ->
          nth_error (group d) i
          = Some (if truthy (selectable oi) then
                    PopUpButton
                      ((if Z.of_nat i =? _index grouped_selector
                        then lit "(+) " else lit "( ) ") ++ label oi)
                      4 (Z.of_nat i)
                  else TextRow (lit "    " ++ label oi)))
    /\ seq_getitem (group d) (_index grouped_selector) = Ok (focus d).
Proof.
  apply (@dialog_rows_shown grouped_selector grouped_options);
    [reflexivity |].
  change (_index grouped_selector) with 1.
  cbn [grouped_options List.length]. lia.
Defined.

Lemma states_length (state : bool) : List.length (states state) = 4%nat.
Proof. now destruct state. Qed.

Lemma row_text_length (cur_index start : Z) (o : list Option_) (r : row) :
  In r (rows_from cur_index start o) ->
  exists oi,
    In oi o
    /\ Z.of_nat (List.length (row_text r))
       = 4 + Z.of_nat (List.length (label oi)).
Proof.
  revert start. induction o as [| x o IH]; intros start; [intros [] |].
  cbn [rows_from]. intros [<- | Hin].
  - exists x. split; [now left |]. unfold row_of.
    destruct (truthy (selectable x)); cbn [row_text]; rewrite length_app.
    + rewrite states_length. lia.
    + change (List.length (lit "    ")) with 4%nat. lia.
  - destruct (IH _ Hin) as [oi [Hoi Hlen]].
    exists oi. split; [now right | assumption].
Qed.

(** The parameters over stored options, with the longest label as [max]
    computes it. *)
Lemma pop_up_parameters_stored (self : Selector) (o : list Option_) :
  _options self = map stored o ->
  Selector_get_pop_up_parameters self
  = match Py.max (map (fun x => Z.of_nat (List.length (label x))) o) with
    | Ok longest =>
        (Ok {| left_ := -1;
               top_ := - _index self - 1;
               overlay_width := longest + Z.of_nat (List.length _prefix) + 3;
               overlay_height := Z.of_nat (List.length (_options self)) + 2 |},
         self)
    | Raise e => (Raise e, self)
    end.
Proof.
  intros Hopts. unfold Selector_get_pop_up_parameters.
  rewrite bind_gets. unfold bind at 1.
  rewrite Hopts at 1. rewrite label_lengths. rewrite bind_lift.
  now destruct (Py.max _).
Qed.

(** X12. The overlay that [get_pop_up_parameters] asks for holds the
    dialog that [create_pop_up] builds: its height is the number of rows
    plus 2, and every row's text, with 3 more columns for the two borders
    and the space, fits its width. *)
Theorem overlay_holds_dialog (self : Selector) (o : list Option_)
  (d : PopUpSelectDialog) (p : pop_up_parameters) :
  _options self = map stored o ->
  Selector_create_pop_up self = (Ok d, self) ->
  Selector_get_pop_up_parameters self = (Ok p, self) ->
  overlay_height p = Z.of_nat (List.length (group d)) + 2
  /\ forall r, In r (group d) ->
       Z.of_nat (List.length (row_text r)) + 3 <= overlay_width p.
Proof.
  intros Hopts Hd Hp.
  unfold Selector_create_pop_up, Selector_index in Hd.
  rewrite bind_gets, (@dialog_init_stored _ _ _ Hopts) in Hd.
  destruct (seq_getitem (rows_from (_index self) 0 o) (_index self))
    as [f |]; [| discriminate].
  injection Hd as <-.
  rewrite (@pop_up_parameters_stored _ _ Hopts) in Hp.
  destruct o as [| x o']; [discriminate |].
  destruct (@py_max_spec
              (map (fun y => Z.of_nat (List.length (label y))) (x :: o')))
    as [longest [Hmax [_ Hall]]]; [discriminate |].
  rewrite Hmax in Hp. injection Hp as <-.
  cbn [overlay_height overlay_width group].
  split.
  - now rewrite Hopts, length_map, rows_from_length.
  - intros r Hr. destruct (row_text_length _ _ _ _ Hr) as [oi [Hoi Hlen]].
    rewrite Forall_forall in Hall.
    assert (Z.of_nat (List.length (label oi)) <= longest).
    { apply Hall. apply in_map_iff. now exists oi. }
    change (List.length _prefix) with 4%nat. lia.
Qed.

Lemma overlay_holds_dialog_witness :
  overlay_height
    {| left_ := -1; top_ := -2; overlay_width := 12; overlay_height := 5 |}
  = Z.of_nat (List.length
                (group {| group := rows_from 1 0 grouped_options;
                          focus := PopUpButton (lit "(+) A") 4 1 |})) + 2
  /\ forall r,
       In r (group {| group := rows_from 1 0 grouped_options;
                      focus := PopUpButton (lit "(+) A") 4 1 |}) ->
       Z.of_nat (List.length (row_text r)) + 3
       <= overlay_width
            {| left_ := -1; top_ := -2; overlay_width := 12;
               overlay_height := 5 |}.
Proof.
  apply (@overlay_holds_dialog grouped_selector grouped_options);
    reflexivity.
Defined.

(** X13. A row of an option that is not selectable is inert: clicking it
    in the open dialog changes nothing, emits nothing and leaves the
    pop-up open. *)
Theorem click_on_plain_row (self opened : Selector) (o : list Option_)
  (i : nat) (oi : Option_) :
  _options self = map stored o ->
  PopUpLauncher_open_pop_up self = (Ok tt, opened) ->
  nth_error o i = Some oi ->
  truthy (selectable oi) = false ->
  click_row i opened = (Ok tt, opened)
  /\ exists d, _pop_up_widget opened = Some d.
Proof.
  intros Hopts Hopen Hnth Hplain.
  rewrite (@open_pop_up_stored _ _ Hopts) in Hopen.
  destruct (seq_getitem (rows_from (_index self) 0 o) (_index self))
    as [f | e]; [| discriminate].
  injection Hopen as <-. split; [| now eexists].
  unfold click_row. rewrite bind_gets.
  cbn [_pop_up_widget with_pop_up group].
  rewrite (@rows_from_nth _ _ _ _ _ Hnth). unfold row_of.
  now rewrite Hplain.
Qed.

Lemma click_on_plain_row_witness :
  click_row 0 (snd (PopUpLauncher_open_pop_up grouped_selector))
  = (Ok tt, snd (PopUpLauncher_open_pop_up grouped_selector))
  /\ exists d,
      _pop_up_widget (snd (PopUpLauncher_open_pop_up grouped_selector))
      = Some d.
Proof.
  apply (@click_on_plain_row grouped_selector
           (snd (PopUpLauncher_open_pop_up grouped_selector))
           grouped_options 0
           {| label := lit "Group"; selectable := VBool false;
              value := VStr (lit "Group") |});
    reflexivity.
Defined.

(** X14. [Selector.keypress] hands back, untouched and without any effect,
    every key that is not bound to activation.  A key bound to activation
    on a closed Selector opens the pop-up, and the escape key on that
    dialog then gives back the Selector exactly as it was before the
    activation. *)
Theorem activation_then_escape (command_map : str -> option command)
  (Pile_keypress : val -> str -> M Selector val) (size : val) (key : str)
  (self : Selector) :
  (is_activate (command_map key) = false ->
   Selector_keypress command_map size key self = (Ok (VStr key), self))
  /\ (is_activate (command_map key) = true ->
      _pop_up_widget self = None ->
      forall opened,
        Selector_keypress command_map size key self = (Ok VNone, opened) ->
        (exists d, _pop_up_widget opened = Some d)
        /\ PopUpSelectDialog_keypress Pile_keypress size (lit "esc") opened
           = (Ok VNone, self)).
Proof.
  unfold Selector_keypress. split.
  - now intros ->.
  - intros -> Hclosed opened Hkey. cbn [negb] in Hkey.
    unfold bind in Hkey.
    destruct (PopUpLauncher_open_pop_up self) as [[[] | e] s1] eqn:Hopen;
      [| discriminate].
    injection Hkey as <-. split.
    + destruct (open_pop_up_keeps self) as [Hsame | [d Hd]];
        rewrite Hopen in *; cbn [snd] in *.
      * exfalso. revert Hopen.
        unfold PopUpLauncher_open_pop_up, Selector_create_pop_up,
          Selector_index.
        rewrite bind_bind, bind_gets. unfold bind.
        destruct (PopUpSelectDialog_init (_index self) self)
          as [[d | e] s2] eqn:Hinit; [| discriminate].
        cbn [modify]. intros [= Heq].
        pose proof (dialog_init_pure (_index self) self) as Hpure.
        rewrite Hinit in Hpure. cbn [snd] in Hpure. subst s2.
        rewrite Hsame in Heq.
        apply (f_equal _pop_up_widget) in Heq.
        cbn [_pop_up_widget with_pop_up] in Heq. congruence.
      * subst s1. now exists d.
    + now apply (@open_then_escape Pile_keypress size self s1).
Qed.

Lemma activation_then_escape_witness :
  Selector_keypress sample_command_map VNone (lit "tab") grouped_selector
  = (Ok (VStr (lit "tab")), grouped_selector)
  /\ ((exists d,
         _pop_up_widget
           (snd (Selector_keypress sample_command_map VNone (lit "enter")
                   grouped_selector))
         = Some d)
      /\ PopUpSelectDialog_keypress no_navigation VNone (lit "esc")
           (snd (Selector_keypress sample_command_map VNone (lit "enter")
                   grouped_selector))
         = (Ok VNone, grouped_selector)).
Proof.
  split.
  - apply (proj1 (activation_then_escape sample_command_map no_navigation
                    VNone (lit "tab") grouped_selector)).
    reflexivity.
  - apply (proj2 (activation_then_escape sample_command_map no_navigation
                    VNone (lit "enter") grouped_selector));
      reflexivity.
Defined.

(** X15. The activation key on the focused row of a newly opened dialog,
    when the current option is selectable and the index is not negative,
    clicks that row: the ["select"] signal goes out again with the current
    value, the index is stored again, and the pop-up is closed. *)
Theorem confirm_focused_row (command_map : str -> option command)
  (size : val) (key : str) (self opened : Selector) (o : list Option_)
  (i : nat) (oi : Option_) (d : PopUpSelectDialog) :
  _options self = map stored o ->
  _index self = Z.of_nat i ->
  nth_error o i = Some oi ->
  truthy (selectable oi) = true ->
  PopUpLauncher_open_pop_up self = (Ok tt, opened) ->
  _pop_up_widget opened = Some d ->
  is_activate (command_map key) = true ->
  exists assigned,
    Selector_index_setter (Z.of_nat i) self = (Ok tt, assigned)
    /\ PopUpButton_keypress command_map (focus d) size key opened
       = (Ok VNone, with_pop_up None assigned)
    /\ _index (with_pop_up None assigned) = _index self
    /\ history (with_pop_up None assigned)
       = history self
         ++ [Emit (lit "select") [value oi];
             SetText (_prefix ++ label oi);
             StoreIndex (Z.of_nat i)].
Proof.
  intros Hopts Hindex Hnth Hsel Hopen Hd Hact.
  assert (Hget : seq_getitem (_options self) (Z.of_nat i) = Ok (stored oi)).
  { rewrite Hopts. apply seq_getitem_of_nat. now apply map_nth_error. }
  rewrite (@open_pop_up_stored _ _ Hopts) in Hopen.
  rewrite Hindex in Hopen.
  rewrite (seq_getitem_of_nat _ _ (@rows_from_nth (Z.of_nat i) 0 _ _ _ Hnth))
    in Hopen.
  injection Hopen as <-.
  cbn [_pop_up_widget with_pop_up] in Hd. injection Hd as <-.
  cbn [focus].
  eexists. split; [apply index_setter_on_stored; exact Hget |].
  split; [| split].
  - unfold PopUpButton_keypress. rewrite Hact. cbn [negb].
    unfold row_of. rewrite Hsel. cbn [emit_click].
    unfold PopUpSelectDialog_click. rewrite bind_bind.
    erewrite bind_ok; [| apply index_setter_on_stored; exact Hget].
    reflexivity.
  - cbn [_index record with_index with_button with_pop_up]. congruence.
  - cbn [history record with_index with_button with_pop_up].
    now rewrite <- !app_assoc.
Qed.

Lemma confirm_focused_row_witness :
  exists assigned,
    Selector_index_setter 1 grouped_selector = (Ok tt, assigned)
    /\ PopUpButton_keypress sample_command_map
         (PopUpButton (lit "(+) A") 4 1) VNone (lit "enter")
         (snd (PopUpLauncher_open_pop_up grouped_selector))
       = (Ok VNone, with_pop_up None assigned)
    /\ _index (with_pop_up None assigned) = _index grouped_selector
    /\ history (with_pop_up None assigned)
       = history grouped_selector
         ++ [Emit (lit "select") [VStr (lit "A")];
             SetText (lit "(+) A");
             StoreIndex 1].
Proof.
  apply (@confirm_focused_row sample_command_map VNone (lit "enter")
           grouped_selector
           (snd (PopUpLauncher_open_pop_up grouped_selector))
           grouped_options 1
           {| label := lit "A"; selectable := VBool true;
              value := VStr (lit "A") |}
           {| group := rows_from 1 0 grouped_options;
              focus := PopUpButton (lit "(+) A") 4 1 |});
    reflexivity.
Defined.

Lemma rows_need_text_labels (S : Type) (cur_index start : Z)
  (options : list val) (s : S) :
  Forall (fun opt => is_triple opt = true) options ->
  (exists opt, In opt options /\ label_not_text opt = true) ->
  map_m (fun io : Z * val =>
      let (i, option) := io in
      selectable <- lift (getitem option 1) ;;
      if truthy selectable then
        label <- lift (getitem option 0) ;;
        PopUpButton_init label (i =? cur_index) i
      else
        label <- lift (getitem option 0) ;;
        text <- lift (str_add (lit "    ") label) ;;
        ret (TextRow text))
    (enumerate_from start options) s
  = (Raise TypeError, s).
Proof.
  intros Hall. revert start.
  induction Hall as [| opt options Hopt Hall IH]; intros start [bad [Hin Hbad]];
    [destruct Hin |].
  destruct opt as [| | | | [| o0 [| o1 [| o2 [| o3 rest]]]] |];
    try discriminate Hopt.
  cbn [enumerate_from map_m]. run.
  rewrite getitem_triple_1, getitem_triple_0.
  destruct o0 as [| b | z | t | items | items];
    try (destruct (truthy o1); reflexivity).
  assert (Htail : exists opt, In opt options /\ label_not_text opt = true).
  { destruct Hin as [<- | Hin]; [discriminate Hbad | now exists bad]. }
  destruct (truthy o1); run.
  - unfold PopUpButton_init. run. cbn [str_add]. run.
    erewrite bind_raise; [reflexivity | apply (IH _ Htail)].
  - cbn [str_add]. run.
    erewrite bind_raise; [reflexivity | apply (IH _ Htail)].
Qed.

(** X16. The pop-up needs every label to be text, not only the current
    one: on a Selector whose options are triples, one of them with a label
    that is not text, opening the pop-up raises [TypeError] and the
    Selector stays closed and unchanged. *)
Theorem pop_up_needs_text_labels (self : Selector) :
  Forall (fun opt => is_triple opt = true) (_options self) ->
  (exists opt, In opt (_options self) /\ label_not_text opt = true) ->
  PopUpLauncher_open_pop_up self = (Raise TypeError, self).
Proof.
  intros Hall Hbad.
  unfold PopUpLauncher_open_pop_up, Selector_create_pop_up, Selector_index,
    PopUpSelectDialog_init.
  rewrite !bind_bind, bind_gets, bind_bind, bind_gets, bind_bind.
  erewrite bind_raise; [reflexivity |].
  now apply rows_need_text_labels.
Qed.

Lemma pop_up_needs_text_labels_witness :
  PopUpLauncher_open_pop_up
    (snd (Selector_new [VStr (lit "Yes"); VTuple [VInt 7; VBool true; VInt 8]] 0))
  = (Raise TypeError,
     snd (Selector_new [VStr (lit "Yes"); VTuple [VInt 7; VBool true; VInt 8]] 0)).
Proof.
  apply (@pop_up_needs_text_labels
           (snd (Selector_new
                   [VStr (lit "Yes"); VTuple [VInt 7; VBool true; VInt 8]] 0))).
  - repeat constructor.
  - exists (VTuple [VInt 7; VBool true; VInt 8]).
    split; [right; now left | reflexivity].
Defined.

(** ** Further properties: normalization again *)

Lemma documented_triple_fixed (opt : val) :
  valid_shape opt = true ->
  valid_shape (documented_triple opt) = true
  /\ documented_triple (documented_triple opt) = documented_triple opt.
Proof.
  intros Hvalid.
  destruct (documented_triple_shape _ Hvalid) as [o0 [o1 [o2 ->]]].
  now split.
Qed.

(** X17. Normalization is idempotent: the options that a Selector stores
    are valid raw options themselves, and a Selector built from them
    stores them unchanged. *)
Theorem normalization_idempotent (opts : list val) (index : Z) :
  forallb valid_shape opts = true ->
  forallb valid_shape (map documented_triple opts) = true
  /\ _options (snd (Selector_new (map documented_triple opts) index))
     = map documented_triple opts.
Proof.
  intros Hvalid.
  assert (Hagain : forallb valid_shape (map documented_triple opts) = true).
  { apply forallb_forall. intros opt Hin.
    apply in_map_iff in Hin as [raw [<- Hraw]].
    apply documented_triple_fixed.
    rewrite forallb_forall in Hvalid. now apply Hvalid. }
  split; [assumption |].
  rewrite Selector_new_valid by assumption.
  assert (Hfixed : map documented_triple (map documented_triple opts)
                   = map documented_triple opts).
  { rewrite map_map. apply map_ext_in. intros raw Hraw.
    apply documented_triple_fixed.
    rewrite forallb_forall in Hvalid. now apply Hvalid. }
  rewrite Hfixed.
  destruct (set_index_outcome index
              (with_button _prefix
                 (with_options (map documented_triple opts) blank)))
    as [[e [-> _]] | [text ->]]; reflexivity.
Qed.

Lemma normalization_idempotent_witness :
  forallb valid_shape
    (map documented_triple
       [VStr (lit "Yes"); VTuple [VStr (lit "No"); VBool false]]) = true
  /\ _options
       (snd (Selector_new
               (map documented_triple
                  [VStr (lit "Yes"); VTuple [VStr (lit "No"); VBool false]])
               1))
     = map documented_triple
         [VStr (lit "Yes"); VTuple [VStr (lit "No"); VBool false]].
Proof.
  apply (@normalization_idempotent
           [VStr (lit "Yes"); VTuple [VStr (lit "No"); VBool false]] 1).
  reflexivity.
Defined.

(** ** Further properties: the editors *)

Section EditorExtras.

Context {E : Type} `{EditPrimitive E}.

(** X18. [EmailEditor.keypress] forwards a key exactly when its first
    character is a letter, a digit or one of [_ . @ + = -], and otherwise
    returns [False] and touches nothing; unlike the real-name editor it
    swallows the space. *)
Theorem EmailEditor_filter (size : val) (key : str) (self : StringEditor E) :
  (first_char_in email_char key = true ->
   forwards EmailEditor_keypress size key self)
  /\ (first_char_in email_char key = false ->
      swallows EmailEditor_keypress size key self)
  /\ forwards EmailEditor_keypress size (lit "@") self
  /\ forwards EmailEditor_keypress size (lit ".") self
  /\ forwards EmailEditor_keypress size (lit "+") self
  /\ forwards EmailEditor_keypress size (lit "=") self
  /\ forwards EmailEditor_keypress size (lit "-") self
  /\ swallows EmailEditor_keypress size (lit " ") self
  /\ swallows EmailEditor_keypress size (lit "$") self
  /\ swallows EmailEditor_keypress size (lit "") self.
Proof.
  pose proof (fun k => EmailEditor_verdict size k self) as Hv.
  split; [| split; [| split; [| split; [| split; [| split;
    [| split; [| split; [| split]]]]]]]].
  - intros Hin. specialize (Hv key). now rewrite Hin in Hv.
  - intros Hout. specialize (Hv key). now rewrite Hout in Hv.
  - apply (Hv (lit "@")).
  - apply (Hv (lit ".")).
  - apply (Hv (lit "+")).
  - apply (Hv (lit "=")).
  - apply (Hv (lit "-")).
  - apply (Hv (lit " ")).
  - apply (Hv (lit "$")).
  - apply (Hv (lit "")).
Qed.

(** X19. [set_error] with a non-empty message shows the message in the
    field and arms one clearing: the next key, whatever it is, first
    empties the field and resets [error], and only then reaches the
    [Edit]; the key after that reaches the [Edit] directly. *)
Theorem error_cleared_by_next_key (size : val) (key : str) (msg : str)
  (self : StringEditor E) :
  msg <> [] ->
  let shown := snd (StringEditor_set_error msg self) in
  let typed := StringEditor_keypress size key shown in
  _edit shown = set_edit_text msg (_edit self)
  /\ error shown = VStr msg
  /\ calls shown = calls self ++ [CallSetEditText msg]
  /\ fst typed
     = Ok (fst (edit_keypress size key (set_edit_text (lit "") (_edit shown))))
  /\ _edit (snd typed)
     = snd (edit_keypress size key (set_edit_text (lit "") (_edit shown)))
  /\ error (snd typed) = VNone
  /\ calls (snd typed)
     = calls shown ++ [CallSetEditText (lit ""); CallKeypress size key]
  /\ forall size' key',
       calls (snd (StringEditor_keypress size' key' (snd typed)))
       = calls (snd typed) ++ [CallKeypress size' key'].
Proof.
  intros Hmsg shown typed. subst typed shown.
  unfold StringEditor_set_error, StringEditor_keypress, bind, gets,
    Edit_set_edit_text, set_error_attr, modify, Edit_keypress, ret.
  cbn [snd fst _edit error calls truthy].
  destruct msg as [| c msg]; [congruence |].
  cbn [List.length Nat.eqb negb _edit error calls].
  destruct (edit_keypress size key _) as [r e] eqn:Hkey.
  cbn [snd fst _edit error calls truthy].
  repeat split.
  - now rewrite <- !app_assoc.
  - intros size' key'.
    destruct (edit_keypress size' key' e). reflexivity.
Qed.

(** X20. [set_error] with the empty message does not arm the clearing,
    because the empty text counts as no error: the next key goes straight
    to the [Edit], and [error] keeps holding the empty text. *)
Theorem empty_error_not_armed (size : val) (key : str)
  (self : StringEditor E) :
  let shown := snd (StringEditor_set_error (lit "") self) in
  let typed := StringEditor_keypress size key shown in
  error shown = VStr (lit "")
  /\ fst typed = Ok (fst (edit_keypress size key (_edit shown)))
  /\ _edit (snd typed) = snd (edit_keypress size key (_edit shown))
  /\ error (snd typed) = VStr (lit "")
  /\ calls (snd typed) = calls shown ++ [CallKeypress size key].
Proof.
  intros shown typed. subst typed shown.
  unfold StringEditor_set_error, StringEditor_keypress, bind, gets,
    Edit_set_edit_text, set_error_attr, modify, Edit_keypress, ret.
  cbn [snd fst _edit error calls].
  change (truthy (VStr (lit ""))) with false. cbv beta iota.
  cbn [_edit error calls].
  destruct (edit_keypress size key _) as [r e].
  cbn [snd fst _edit error calls]. now repeat split.
Qed.

(** X21. While an error message is displayed, [UsernameEditor] measures
    the message, not the name: a key in [[a-z0-9_-]], a digit or a hyphen
    included, is forwarded, and [StringEditor.keypress] empties the field
    first, so that key becomes the first character of the name. *)
Theorem UsernameEditor_during_error (size : val) (key : str)
  (self : StringEditor E) :
  truthy (error self) = true ->
  get_edit_text (_edit self) <> [] ->
  first_char_in username_char key = true ->
  forwards UsernameEditor_keypress size key self
  /\ fst (UsernameEditor_keypress size key self)
     = Ok (fst (edit_keypress size key (set_edit_text (lit "") (_edit self))))
  /\ _edit (snd (UsernameEditor_keypress size key self))
     = snd (edit_keypress size key (set_edit_text (lit "") (_edit self)))
  /\ error (snd (UsernameEditor_keypress size key self)) = VNone
  /\ calls (snd (UsernameEditor_keypress size key self))
     = calls self ++ [CallSetEditText (lit ""); CallKeypress size key].
Proof.
  intros Herror Hnonempty Hkey.
  pose proof (UsernameEditor_verdict_nonempty size key self Hnonempty) as Hv.
  rewrite Hkey in Hv. split; [exact Hv |].
  destruct Hv as [-> _].
  unfold StringEditor_keypress, bind, gets, Edit_set_edit_text,
    set_error_attr, modify, Edit_keypress, ret.
  rewrite Herror. cbn [_edit error calls].
  destruct (edit_keypress size key _) as [r e].
  cbn [snd fst _edit error calls]. repeat split.
  now rewrite <- app_assoc.
Qed.

End EditorExtras.

Lemma EmailEditor_filter_witness :
  forwards EmailEditor_keypress VNone (lit "@") (StringEditor_init (lit "ada"))
  /\ swallows EmailEditor_keypress VNone (lit " ")
       (StringEditor_init (lit "ada")).
Proof.
  split.
  - apply (proj1 (@EmailEditor_filter str LineEdit VNone (lit "@")
                    (StringEditor_init (lit "ada")))).
    reflexivity.
  - apply (proj1 (proj2 (@EmailEditor_filter str LineEdit VNone (lit " ")
                           (StringEditor_init (lit "ada"))))).
    reflexivity.
Defined.

Lemma error_cleared_by_next_key_witness :
  _edit (snd (StringEditor_keypress VNone (lit "a")
                (snd (StringEditor_set_error (lit "too short")
                        (StringEditor_init (lit "x"))))))
  = lit "a"
  /\ calls (snd (StringEditor_keypress VNone (lit "a")
                   (snd (StringEditor_set_error (lit "too short")
                           (StringEditor_init (lit "x"))))))
     = [CallSetEditText (lit "too short"); CallSetEditText (lit "");
        CallKeypress VNone (lit "a")].
Proof.
  destruct (@error_cleared_by_next_key str LineEdit VNone (lit "a")
              (lit "too short") (StringEditor_init (lit "x"))
              ltac:(discriminate))
    as [_ [_ [_ [_ [Hedit [_ [Hcalls _]]]]]]].
  split; [exact Hedit | exact Hcalls].
Defined.

Lemma UsernameEditor_during_error_witness :
  forwards UsernameEditor_keypress VNone (lit "1")
    (snd (StringEditor_set_error (lit "taken") (StringEditor_init (lit ""))))
  /\ _edit (snd (UsernameEditor_keypress VNone (lit "1")
                   (snd (StringEditor_set_error (lit "taken")
                           (StringEditor_init (lit ""))))))
     = lit "1".
Proof.
  destruct (@UsernameEditor_during_error str LineEdit VNone (lit "1")
              (snd (StringEditor_set_error (lit "taken")
                      (StringEditor_init (lit ""))))
              ltac:(reflexivity) ltac:(discriminate) ltac:(reflexivity))
    as [Hforwards [_ [Hedit _]]].
  split; [exact Hforwards | exact Hedit].
Defined.

Section ValueSetter.

Context {E : Type} `{EditPrimitive E}.

(** X22. The [value] setter writes the text and nothing else: it does not
    reset [error].  So a value assigned while an error message is armed is
    wiped by the next key, which empties the field before it reaches the
    [Edit]. *)
Theorem value_set_during_error_is_wiped (size : val) (key : str)
  (msg value : str) (self : StringEditor E) :
  msg <> [] ->
  let assigned :=
    snd ((StringEditor_set_error msg ;; StringEditor_set_value value) self) in
  let typed := StringEditor_keypress size key assigned in
  _edit assigned = set_edit_text value (set_edit_text msg (_edit self))
  /\ error assigned = VStr msg
  /\ _edit (snd typed)
     = snd (edit_keypress size key (set_edit_text (lit "") (_edit assigned)))
  /\ error (snd typed) = VNone
  /\ calls (snd typed)
     = calls self
       ++ [CallSetEditText msg; CallSetEditText value;
           CallSetEditText (lit ""); CallKeypress size key].
Proof.
  intros Hmsg assigned typed. subst typed assigned.
  unfold StringEditor_set_error, StringEditor_set_value,
    StringEditor_keypress, bind, gets, Edit_set_edit_text, set_error_attr,
    modify, Edit_keypress, ret.
  cbn [snd fst _edit error calls truthy].
  destruct msg as [| c msg]; [congruence |].
  cbn [List.length Nat.eqb negb _edit error calls].
  destruct (edit_keypress size key _) as [r e].
  cbn [snd fst _edit error calls]. repeat split.
  now rewrite <- !app_assoc.
Qed.

End ValueSetter.

Lemma value_set_during_error_is_wiped_witness :
  _edit (snd (StringEditor_keypress VNone (lit "b")
                (snd ((StringEditor_set_error (lit "taken") ;;
                       StringEditor_set_value (lit "ada"))
                        (StringEditor_init (lit ""))))))
  = lit "b".
Proof.
  destruct (@value_set_during_error_is_wiped str LineEdit VNone (lit "b")
              (lit "taken") (lit "ada") (StringEditor_init (lit ""))
              ltac:(discriminate))
    as [_ [_ [Hedit _]]].
  exact Hedit.
Defined.

(** ** Further properties: the Yes/No control *)

(** X23. [YesNo()] is built without error, and whatever is then done to
    it, it reports one of its two answers, the button always showing the
    answer that [value] returns. *)
Theorem YesNo_reports_yes_or_no (ops : list operation) :
  fst YesNo_new = Ok tt
  /\ let self := perform_all ops (snd YesNo_new) in
     (Selector_value self = (Ok (VStr (lit "Yes")), self)
      /\ _button self = lit "(+) Yes")
     \/ (Selector_value self = (Ok (VStr (lit "No")), self)
         /\ _button self = lit "(+) No").
Proof.
  split; [reflexivity |]. intros self.
  assert (Hc : consistent (snd YesNo_new)).
  { exists (VTuple [VStr (lit "Yes"); VBool true; VStr (lit "Yes")]),
      (lit "Yes"), (VStr (lit "Yes")). now repeat split. }
  destruct (perform_all_keeps ops Hc)
    as [[opt [label [value [Hget [Hl [Hv Hb]]]]]] Hsame].
  fold self in Hget, Hb, Hsame.
  assert (Hin : In opt (_options self)).
  { unfold seq_getitem in Hget.
    destruct ((_ <? 0) || _); [discriminate |].
    destruct (nth_error _ _) as [x |] eqn:Hnth; [| discriminate].
    injection Hget as <-. eapply nth_error_In; eassumption. }
  assert (Hvalue : Selector_value self = (Ok value, self)).
  { unfold Selector_value. run. rewrite Hget. run. now rewrite Hv. }
  rewrite Hsame in Hin.
  destruct Hin as [<- | [<- | []]];
    rewrite getitem_triple_0 in Hl; rewrite getitem_triple_2 in Hv;
    injection Hl as <-; injection Hv as <-.
  - left. now split.
  - right. now split.
Qed.
